(** * Verification hooks routes (src/server/routes/verification.ts)

    A shallow embedding of the pure helpers and of the route handlers of
    [registerHooksRoutes], together with the properties the specification
    states about them.

    JavaScript strings are sequences of UTF-16 code units; they are modelled
    as lists of code units so that [trim], [split], [indexOf], [slice] and the
    regular expression class [\s] keep their ECMAScript meaning. *)

From Stdlib Require Import List NArith ZArith Bool String Ascii Lia.
From Stdlib Require Import Floats.SpecFloat Numbers.DecimalString.
Import ListNotations.
Open Scope N_scope.
Open Scope list_scope.

(* ================================================================== *)
(** ** JavaScript strings *)
(* ================================================================== *)

Module JS.

Definition code_unit := N.
Definition jsstring := list code_unit.

(** An ASCII literal of the source as a code-unit sequence. *)
Definition lit (s : string) : jsstring :=
  map N_of_ascii (list_ascii_of_string s).

Fixpoint str_eqb (a b : jsstring) : bool :=
  match a, b with
  | [], [] => true
  | x :: a', y :: b' => (x =? y) && str_eqb a' b'
  | _, _ => false
  end.

(** ECMAScript WhiteSpace and LineTerminator code points: what
    [String.prototype.trim] strips and what [\s] matches. *)
Definition is_whitespace (c : code_unit) : bool :=
  (c =? 9) || (c =? 10) || (c =? 11) || (c =? 12) || (c =? 13) ||
  (c =? 32) || (c =? 160) || (c =? 5760) ||
  ((8192 <=? c) && (c <=? 8202)) ||
  (c =? 8232) || (c =? 8233) || (c =? 8239) || (c =? 8287) ||
  (c =? 12288) || (c =? 65279).

Definition LF : code_unit := 10.
Definition COLON : code_unit := 58.

Fixpoint trimStart (s : jsstring) : jsstring :=
  match s with
  | c :: s' => if is_whitespace c then trimStart s' else s
  | [] => []
  end.

Definition trimEnd (s : jsstring) : jsstring := rev (trimStart (rev s)).

(** [s.trim()] *)
Definition trim (s : jsstring) : jsstring := trimEnd (trimStart s).

(** [s.startsWith(p)], also the test a regular expression makes for a
    literal at the current position. *)
Fixpoint starts_with (p s : jsstring) : bool :=
  match p, s with
  | [], _ => true
  | x :: p', y :: s' => (x =? y) && starts_with p' s'
  | _ :: _, [] => false
  end.

(** [s.split(sep)] for a one-unit separator: [n] separators give [n + 1]
    pieces, the empty string gives one empty piece. *)
Fixpoint split (sep : code_unit) (s : jsstring) : list jsstring :=
  match s with
  | [] => [[]]
  | c :: s' =>
      if c =? sep then [] :: split sep s'
      else match split sep s' with
           | piece :: rest => (c :: piece) :: rest
           | [] => [[c]]
           end
  end.

(** [s.indexOf(c)] for a one-unit needle: the first index, or [-1]. *)
Fixpoint indexOf (c : code_unit) (s : jsstring) : Z :=
  match s with
  | [] => (-1)%Z
  | x :: s' =>
      if x =? c then 0%Z
      else let i := indexOf c s' in
           if (i <? 0)%Z then (-1)%Z else (i + 1)%Z
  end.

(** [s.slice(start, end)]: a negative index counts from the end, both are
    clamped to the length, and an empty range gives the empty string. *)
Definition slice_index (len i : Z) : Z :=
  if (i <? 0)%Z then Z.max (len + i) 0 else Z.min i len.

Definition slice (s : jsstring) (istart iend : Z) : jsstring :=
  let len := Z.of_nat (List.length s) in
  let from := slice_index len istart in
  let to := slice_index len iend in
  firstn (Z.to_nat (Z.max (to - from) 0)) (skipn (Z.to_nat from) s).

(** [s.slice(start)] *)
Definition slice_from (s : jsstring) (istart : Z) : jsstring :=
  slice s istart (Z.of_nat (List.length s)).

(** *** Values

    What [await c.req.json()] can put in a destructured field, plus
    [undefined] for an absent one.  Arrays and objects are never inspected by
    this module, which only tests them for truthiness and identity with a
    string or boolean; they are carried by their JSON text. *)
Inductive value :=
| VUndefined
| VNull
| VBool (b : bool)
| VNum (x : spec_float)
| VStr (s : jsstring)
| VObject (json : jsstring).

(** ToBoolean *)
Definition truthy (v : value) : bool :=
  match v with
  | VUndefined | VNull => false
  | VBool b => b
  | VNum (S754_zero _) | VNum S754_nan => false
  | VNum _ => true
  | VStr [] => false
  | VStr _ => true
  | VObject _ => true
  end.

(** [v === "literal"] *)
Definition strict_eq_str (v : value) (s : jsstring) : bool :=
  match v with
  | VStr s' => str_eqb s' s
  | _ => false
  end.

(** [a || b] on values *)
Definition or_else (a b : value) : value := if truthy a then a else b.

(** An optional string property of a typed record: [undefined] or a string. *)
Definition text := option jsstring.

Definition text_truthy (t : text) : bool :=
  match t with
  | Some (_ :: _) => true
  | _ => false
  end.

(** [t === "literal"] for an optional string *)
Definition text_is (t : text) (s : jsstring) : bool :=
  match t with
  | Some s' => str_eqb s' s
  | None => false
  end.

(** [t?.trim()] *)
Definition opt_trim (t : text) : text := option_map trim t.

End JS.
Import JS.

(* ================================================================== *)
(** ** Trigger model *)
(* ================================================================== *)

Definition pre_implementation : jsstring := lit "pre-implementation".
Definition post_implementation : jsstring := lit "post-implementation".
Definition custom : jsstring := lit "custom".
Definition on_demand : jsstring := lit "on-demand".

(** Modelled from the spec: the [HookTrigger] type of ../types is not among
    the sources; section 4.1 gives its four literals. *)
Definition hook_triggers : list jsstring :=
  [pre_implementation; post_implementation; custom; on_demand].

Definition normalizeHookTrigger (v : value) : value :=
  if strict_eq_str v pre_implementation
     || strict_eq_str v post_implementation
     || strict_eq_str v custom
     || strict_eq_str v on_demand
  then v
  else VStr post_implementation.

(** Modelled from the spec: the [HookStep] type of ../types is not among
    the sources; section 3 gives its fields, and the source reads command,
    kind, prompt, trigger and enabled as properties that may be unset
    ([None]). *)
Record HookStep := mkStep {
  step_id : jsstring;
  step_name : jsstring;
  step_command : text;
  step_kind : text;
  step_prompt : text;
  step_trigger : text;
  step_enabled : option bool;
  step_condition : text;
  step_conditionTitle : text
}.

Definition matchesTrigger (step : HookStep) (trigger : jsstring) : bool :=
  if str_eqb trigger post_implementation
  then text_is (step_trigger step) post_implementation
       || negb (text_truthy (step_trigger step))
  else text_is (step_trigger step) trigger.

Definition isRunnableCommandStep (step : HookStep) : bool :=
  let isPrompt :=
    text_is (step_kind step) (lit "prompt")
    || (text_truthy (step_prompt step)
        && negb (text_truthy (opt_trim (step_command step)))) in
  negb isPrompt && text_truthy (opt_trim (step_command step)).

Definition formatHookTriggerLabel (trigger : jsstring) : text :=
  if str_eqb trigger pre_implementation then Some (lit "Pre-Implementation")
  else if str_eqb trigger post_implementation then Some (lit "Post-Implementation")
  else if str_eqb trigger custom then Some (lit "Custom")
  else if str_eqb trigger on_demand then Some (lit "On-Demand")
  else None.

(** ASCII case folding, to say that two strings differ only in letter case. *)
Definition ascii_lower (c : code_unit) : code_unit :=
  if (65 <=? c) && (c <=? 90) then c + 32 else c.

Definition same_ignoring_case (a b : jsstring) : Prop :=
  map ascii_lower a = map ascii_lower b.

(* ================================================================== *)
(** ** SKILL.md frontmatter *)
(* ================================================================== *)

Definition FENCE : jsstring := lit "---".

(** The regular expression [/^---\s*\n([\s\S]*?)\n---/] is matched by
    backtracking; each function below is one position of the pattern and
    tries its alternatives in the engine's order. *)

(** [([\s\S]*?)\n---]: the lazy group grows one unit at a time until the
    closing [\n---] matches; the result is the captured group. *)
Fixpoint lazy_until_close (s : jsstring) : option jsstring :=
  if starts_with (LF :: FENCE) s then Some []
  else match s with
       | [] => None
       | c :: s' => option_map (cons c) (lazy_until_close s')
       end.

(** [\s*\n([\s\S]*?)\n---]: the greedy [\s*] first takes the unit at hand,
    and gives it back to [\n] only when the rest fails. *)
Fixpoint after_fence (s : jsstring) : option jsstring :=
  match s with
  | [] => None
  | c :: s' =>
      let stop_here := if c =? LF then lazy_until_close s' else None in
      if is_whitespace c
      then match after_fence s' with
           | Some body => Some body
           | None => stop_here
           end
      else stop_here
  end.

(** [content.match(...)]: without the [m] flag [^] only holds at index 0;
    [Some body] is [match[1]]. *)
Definition frontmatter_match (content : jsstring) : option jsstring :=
  if starts_with FENCE content then after_fence (skipn 3 content) else None.

Record Frontmatter := mkFrontmatter {
  fm_name : jsstring;
  fm_description : jsstring
}.

Definition empty_frontmatter : Frontmatter := mkFrontmatter [] [].

(** One iteration of the [for (const line of ...)] loop, on the pair of
    mutable variables [name], [description]. *)
Definition scan_line (acc : Frontmatter) (line : jsstring) : Frontmatter :=
  let colonIdx := indexOf COLON line in
  if (colonIdx <=? 0)%Z then acc
  else
    let key := trim (slice line 0 colonIdx) in
    let value := trim (slice_from line (colonIdx + 1)) in
    let acc1 :=
      if str_eqb key (lit "name")
      then mkFrontmatter value (fm_description acc) else acc in
    if str_eqb key (lit "description")
    then mkFrontmatter (fm_name acc1) value else acc1.

Definition parseSkillFrontmatter (content : jsstring) : Frontmatter :=
  match frontmatter_match content with
  | None => empty_frontmatter
  | Some body => fold_left scan_line (split LF body) empty_frontmatter
  end.

(** *** The descriptor format, line by line

    A second reading of the format, on the lines of the file, against which
    the parser is compared. *)

Definition blank_line (l : jsstring) : bool := forallb is_whitespace l.

(** A line that opens the block: three hyphens, then at most whitespace. *)
Definition opening_line (l : jsstring) : bool :=
  starts_with FENCE l && blank_line (skipn 3 l).

(** A line that closes the block: it begins with three hyphens. *)
Definition closing_line (l : jsstring) : bool := starts_with FENCE l.

(** The lines before the first closing line, when there is one. *)
Fixpoint until_closing (ls : list jsstring) : option (list jsstring) :=
  match ls with
  | [] => None
  | l :: ls' =>
      if closing_line l then Some []
      else option_map (cons l) (until_closing ls')
  end.

(** The block after the opening line: blank lines are passed over, the
    first line that is not blank starts the block whatever it holds, and
    the block ends before the next closing line. *)
Fixpoint block_after_opening (ls : list jsstring) : option (list jsstring) :=
  match ls with
  | [] => None
  | l :: ls' =>
      if blank_line l then block_after_opening ls'
      else option_map (cons l) (until_closing ls')
  end.

Definition leading_block (lines : list jsstring) : option (list jsstring) :=
  match lines with
  | first :: rest =>
      if opening_line first then block_after_opening rest else None
  | [] => None
  end.

(** The key of a [key: value] line: the text before the first colon,
    trimmed; a line with no colon, or with the colon first, has none. *)
Definition line_key (line : jsstring) : option jsstring :=
  let i := indexOf COLON line in
  if (i <=? 0)%Z then None else Some (trim (slice line 0 i)).

Definition line_value (line : jsstring) : jsstring :=
  trim (slice_from line (indexOf COLON line + 1)).

Definition has_key (key line : jsstring) : bool :=
  match line_key line with
  | Some k => str_eqb k key
  | None => false
  end.

(** The value of the last line of the block with the given key, or the
    empty string. *)
Definition field_of (key : jsstring) (block : list jsstring) : jsstring :=
  match find (has_key key) (rev block) with
  | Some line => line_value line
  | None => []
  end.

Definition descriptor_fields (lines : list jsstring) : Frontmatter :=
  match leading_block lines with
  | Some block =>
      mkFrontmatter (field_of (lit "name") block)
                    (field_of (lit "description") block)
  | None => empty_frontmatter
  end.

(** The shape the descriptor format is documented with: the first line is
    exactly three hyphens and a later line is exactly three hyphens. *)
Definition strictly_fenced (content : jsstring) : bool :=
  match split LF content with
  | first :: rest => str_eqb first FENCE && existsb (fun l => str_eqb l FENCE) rest
  | [] => false
  end.

(** [lines.join("\n")] *)
Fixpoint join_lines (ls : list jsstring) : jsstring :=
  match ls with
  | [] => []
  | [l] => l
  | l :: ls' => l ++ LF :: join_lines ls'
  end.

Definition no_LF (l : jsstring) : bool := forallb (fun c => negb (c =? LF)) l.

(* ================================================================== *)
(** ** Calls that may throw *)
(* ================================================================== *)

(** What a [catch (error)] clause receives: an [Error] with its message,
    or some other thrown value. *)
Inductive thrown :=
| ThrownError (message : jsstring)
| ThrownOther.

Inductive outcome (A : Type) :=
| Returned (a : A)
| Threw (e : thrown).
Arguments Returned {A} a.
Arguments Threw {A} e.

(** [error instanceof Error ? error.message : fallback] *)
Definition error_message (e : thrown) (fallback : jsstring) : jsstring :=
  match e with
  | ThrownError message => message
  | ThrownOther => fallback
  end.

(* ================================================================== *)
(** ** Registry listing: GET /api/hooks/skills/available *)
(* ================================================================== *)

(** A path is the list of the segments given to [path.join]. *)
Definition path := list jsstring.

(** [fs.Dirent] *)
Record Dirent := mkDirent {
  entry_name : jsstring;
  entry_isDirectory : bool
}.

(** The three [fs] calls of the handler, as the state of the file system
    answers them. *)
Record FileSystem := mkFileSystem {
  existsSync : path -> bool;
  readdirSync : path -> outcome (list Dirent);
  readFileSync : path -> outcome jsstring
}.

Record AvailableSkill := mkAvailable {
  av_name : jsstring;
  av_displayName : jsstring;
  av_description : jsstring
}.

(** [a || b] on strings *)
Definition str_or (a b : jsstring) : jsstring :=
  match a with
  | [] => b
  | _ => a
  end.

(** The body of the [for (const entry of ...)] loop on the array
    [available]; [continue] and the inner [catch] leave it as it is. *)
Definition visit_entry (fs : FileSystem) (registryDir : path)
    (available : list AvailableSkill) (entry : Dirent) : list AvailableSkill :=
  if negb (entry_isDirectory entry) then available
  else
    let skillMdPath := registryDir ++ [entry_name entry; lit "SKILL.md"] in
    if negb (existsSync fs skillMdPath) then available
    else
      match readFileSync fs skillMdPath with
      | Returned content =>
          let fm := parseSkillFrontmatter content in
          available ++
            [mkAvailable (entry_name entry)
                         (str_or (fm_name fm) (entry_name entry))
                         (str_or (fm_description fm) [])]
      | Threw _ => available
      end.

Definition listAvailableSkills (fs : FileSystem) (homedir : path)
    : list AvailableSkill :=
  let registryDir := homedir ++ [lit ".dawg"; lit "skills"] in
  if existsSync fs registryDir then
    match readdirSync fs registryDir with
    | Returned entries => fold_left (visit_entry fs registryDir) entries []
    | Threw _ => []
    end
  else [].

(** The record the listing emits for a directory and its descriptor. *)
Definition skill_record (dir content : jsstring) : AvailableSkill :=
  let fm := parseSkillFrontmatter content in
  mkAvailable dir
    (if str_eqb (fm_name fm) [] then dir else fm_name fm)
    (fm_description fm).

(* ================================================================== *)
(** ** Route handlers *)
(* ================================================================== *)

(** What [await c.req.json()] followed by the destructuring of the body
    does.  The properties of an object are its own, one per key. *)
Inductive RequestBody :=
| NotJson (e : thrown)                 (* [c.req.json()] rejects *)
| JsonNull (typeError : jsstring)      (* destructuring [null] throws *)
| JsonScalarOrArray                    (* none of the properties exists *)
| JsonObject (props : list (jsstring * value)).

Fixpoint get_prop (props : list (jsstring * value)) (key : jsstring) : value :=
  match props with
  | [] => VUndefined
  | (k, v) :: rest => if str_eqb k key then v else get_prop rest key
  end.

(** The destructured fields, or what the [try] block throws before them. *)
Definition destructure (body : RequestBody)
    : outcome (jsstring -> value) :=
  match body with
  | NotJson e => Threw e
  | JsonNull typeError => Threw (ThrownError typeError)
  | JsonScalarOrArray => Returned (fun _ => VUndefined)
  | JsonObject props => Returned (get_prop props)
  end.

Inductive SkillStatus := running | passed | failed.

(** The object literal given to [reportSkillResult]; a property the
    literal leaves out is [None] or [VUndefined]. *)
Record SkillHookResult := mkResult {
  r_skillName : value;
  r_trigger : value;
  r_status : SkillStatus;
  r_success : option bool;
  r_summary : value;
  r_content : value;
  r_filePath : value;
  r_reportedAt : jsstring
}.

(** The options object given to [addStep]. *)
Record StepOptions := mkOptions {
  o_kind : value;
  o_prompt : value;
  o_trigger : value;
  o_condition : value;
  o_conditionTitle : value
}.

(** The [HooksManager] the routes are registered with, as far as the three
    handlers below call it.  A call answers and leaves the manager in a new
    state, also when it throws. *)
Class HooksManager (M Config : Type) := {
  addStep : value -> value -> StepOptions -> M -> outcome Config * M;
  removeStep : jsstring -> M -> outcome Config * M;
  reportSkillResult : jsstring -> SkillHookResult -> M -> outcome unit * M
}.

Inductive ResponseBody (Config : Type) :=
| SuccessConfig (config : Config)      (* { success: true, config } *)
| Success                              (* { success: true } *)
| Failure (error : jsstring).          (* { success: false, error } *)
Arguments SuccessConfig {Config} config.
Arguments Success {Config}.
Arguments Failure {Config} error.

(** [c.json(body, status)] *)
Record Response (Config : Type) := Json {
  res_status : N;
  res_body : ResponseBody Config
}.
Arguments Json {Config} res_status res_body.
Arguments res_status {Config} r.
Arguments res_body {Config} r.

Section Routes.
Context {M Config : Type} `{HooksManager M Config}.

(** POST /api/hooks/steps *)
Definition addStep_route (body : RequestBody) (m : M)
    : Response Config * M :=
  match destructure body with
  | Threw e => (Json 400 (Failure (error_message e (lit "Invalid request"))), m)
  | Returned field =>
      let name := field (lit "name") in
      let command := field (lit "command") in
      let kind := field (lit "kind") in
      let prompt := field (lit "prompt") in
      let isPrompt := strict_eq_str kind (lit "prompt") in
      if negb (truthy name)
         || (negb isPrompt && negb (truthy command))
         || (isPrompt && negb (truthy prompt))
      then
        (Json 400
           (Failure (if isPrompt then lit "name and prompt are required"
                     else lit "name and command are required")), m)
      else
        match addStep name (if isPrompt then VStr [] else command)
                (mkOptions kind prompt (field (lit "trigger"))
                   (field (lit "condition")) (field (lit "conditionTitle")))
                m with
        | (Returned config, m') => (Json 200 (SuccessConfig config), m')
        | (Threw e, m') =>
            (Json 400 (Failure (error_message e (lit "Invalid request"))), m')
        end
  end.

(** DELETE /api/hooks/steps/:stepId; the handler has no [try], what the
    manager throws leaves the handler. *)
Definition removeStep_route (stepId : jsstring) (m : M)
    : outcome (Response Config) * M :=
  match removeStep stepId m with
  | (Returned config, m') => (Returned (Json 200 (SuccessConfig config)), m')
  | (Threw e, m') => (Threw e, m')
  end.

(** POST /api/worktrees/:id/hooks/report; [now] is what
    [new Date().toISOString()] gives when the record is built. *)
Definition report_route (worktreeId : jsstring) (body : RequestBody)
    (now : jsstring) (m : M) : Response Config * M :=
  let rejected e m' :=
    (Json 400 (Failure (error_message e (lit "Failed to report result"))), m') in
  match destructure body with
  | Threw e => rejected e m
  | Returned field =>
      let skillName := field (lit "skillName") in
      let trigger := field (lit "trigger") in
      let success := field (lit "success") in
      if negb (truthy skillName)
      then (Json 400 (Failure (lit "skillName is required")), m)
      else
        match success with
        | VUndefined | VNull =>
            match reportSkillResult worktreeId
                    (mkResult skillName trigger running None
                       VUndefined VUndefined VUndefined now) m with
            | (Returned _, m') => (Json 200 Success, m')
            | (Threw e, m') => rejected e m'
            end
        | VBool b =>
            match reportSkillResult worktreeId
                    (mkResult skillName trigger
                       (if b then passed else failed) (Some b)
                       (or_else (field (lit "summary")) VUndefined)
                       (or_else (field (lit "content")) VUndefined)
                       (or_else (field (lit "filePath")) VUndefined)
                       now) m with
            | (Returned _, m') => (Json 200 Success, m')
            | (Threw e, m') => rejected e m'
            end
        | _ => (Json 400 (Failure (lit "success must be a boolean")), m)
        end
  end.

End Routes.

(* ================================================================== *)
(** ** The hooks manager of the specification *)
(* ================================================================== *)

(** ../verification-manager, where [HooksManager] is implemented, is not
    among the sources: the three operations the handlers call are modelled
    from sections 3, 4.2, 4.6 and 7 of the specification. *)

(** Modelled from the spec: the skill-hook instances and the config of the
    missing HooksManager (3): an ordered sequence of steps and the
    instances, one per (skillName, trigger). *)
Record SkillHookInstance := mkSkill {
  sk_skillName : jsstring;
  sk_trigger : jsstring;
  sk_enabled : bool;
  sk_condition : text;
  sk_conditionTitle : text
}.

Record Config := mkConfig {
  cfg_steps : list HookStep;
  cfg_skills : list SkillHookInstance
}.

Definition spec_float_eq_dec (x y : spec_float) : {x = y} + {x <> y}.
Proof.
  decide equality; auto using Bool.bool_dec, Pos.eq_dec, Z.eq_dec.
Defined.

Definition jsstring_eq_dec (x y : jsstring) : {x = y} + {x <> y} :=
  list_eq_dec N.eq_dec x y.

Definition value_eq_dec (x y : value) : {x = y} + {x <> y}.
Proof.
  decide equality;
    auto using Bool.bool_dec, spec_float_eq_dec, jsstring_eq_dec.
Defined.

(** The key of a self-report: (worktreeId, skillName, trigger). *)
Definition ResultKey : Type := jsstring * value * value.

Definition key_eq_dec (x y : ResultKey) : {x = y} + {x <> y}.
Proof.
  decide equality; auto using value_eq_dec.
  decide equality; auto using value_eq_dec, jsstring_eq_dec.
Defined.

Definition key_eqb (x y : ResultKey) : bool :=
  if key_eq_dec x y then true else false.

(** Modelled from the spec: the state of the missing HooksManager (3, 4.2,
    4.6): the config, the monotonic source of step ids, and the latest
    self-report per key. *)
Record Manager := mkManager {
  mgr_config : Config;
  mgr_next_id : N;
  mgr_results : list (ResultKey * SkillHookResult)
}.

Definition decimal (n : N) : jsstring :=
  lit (DecimalString.NilEmpty.string_of_uint (N.to_uint n)).

(** A caller's field as the typed step keeps it: a string as it is; a
    value of another type, which the spec's text fields have no place for,
    as the empty string or as unset. *)
Definition string_of (v : value) : jsstring :=
  match v with
  | VStr s => s
  | _ => []
  end.

Definition text_of (v : value) : text :=
  match v with
  | VStr s => Some s
  | _ => None
  end.

Definition validation (message : string) : thrown :=
  ThrownError (lit message).

(** Modelled from the spec: [addStep] of the missing HooksManager (4.2, 7).
    It fails with Validation if name is empty, or if the step is not a
    prompt and command is empty, or if it is a prompt and prompt is empty
    (empty as the handler reads it: falsy), and for no other reason; it
    never partially applies.  On success it assigns a fresh id from a
    monotonic source, defaults the trigger to post-implementation and
    enabled to true, and appends. *)
Definition spec_addStep (name command : value) (opts : StepOptions)
    (m : Manager) : outcome Config * Manager :=
  let isPrompt := strict_eq_str (o_kind opts) (lit "prompt") in
  if negb (truthy name)
     || (negb isPrompt && negb (truthy command))
     || (isPrompt && negb (truthy (o_prompt opts)))
  then (Threw (validation "name and command or prompt are required"), m)
  else
    let step :=
      mkStep (lit "step-" ++ decimal (mgr_next_id m))
             (string_of name) (Some (string_of command))
             (text_of (o_kind opts)) (text_of (o_prompt opts))
             (Some (string_of (normalizeHookTrigger (o_trigger opts))))
             (Some true)
             (text_of (o_condition opts)) (text_of (o_conditionTitle opts)) in
    let config :=
      mkConfig (cfg_steps (mgr_config m) ++ [step])
               (cfg_skills (mgr_config m)) in
    (Returned config, mkManager config (mgr_next_id m + 1) (mgr_results m)).

(** Modelled from the spec: [removeStep] of the missing HooksManager (4.2):
    the step with the given id leaves the config, the other steps keep
    their order, and the resulting config is returned. *)
Definition spec_removeStep (stepId : jsstring) (m : Manager)
    : outcome Config * Manager :=
  let config :=
    mkConfig
      (filter (fun s => negb (str_eqb (step_id s) stepId))
              (cfg_steps (mgr_config m)))
      (cfg_skills (mgr_config m)) in
  (Returned config, mkManager config (mgr_next_id m) (mgr_results m)).

Definition result_key (worktreeId : jsstring) (r : SkillHookResult)
    : ResultKey :=
  (worktreeId, r_skillName r, r_trigger r).

(** Modelled from the spec: [reportSkillResult] of the missing HooksManager
    (3, 4.6): records are keyed by (worktreeId, skillName, trigger) and each
    new report for a key unconditionally replaces the prior record. *)
Definition spec_reportSkillResult (worktreeId : jsstring)
    (r : SkillHookResult) (m : Manager) : outcome unit * Manager :=
  let k := result_key worktreeId r in
  (Returned tt,
   mkManager (mgr_config m) (mgr_next_id m)
     ((k, r) :: filter (fun e => negb (key_eqb (fst e) k)) (mgr_results m))).

(** The stored record of a key. *)
Definition stored_result (k : ResultKey) (m : Manager)
    : option SkillHookResult :=
  option_map snd (find (fun e => key_eqb (fst e) k) (mgr_results m)).

#[export] Instance SpecManager : HooksManager Manager Config := {
  addStep := spec_addStep;
  removeStep := spec_removeStep;
  reportSkillResult := spec_reportSkillResult
}.

(* ================================================================== *)
(** ** Hook runs: POST /api/worktrees/:id/hooks/run[/:stepId] *)
(* ================================================================== *)

(** Modelled from the spec: the [StepResult] type of ../types is not among
    the sources; section 3 gives its fields.  The same shape carries an
    entry of [commandResults]; a property an object literal leaves out is
    [VUndefined]. *)
Record StepResult := mkStepResult {
  sr_stepId : jsstring;
  sr_stepName : jsstring;
  sr_command : text;
  sr_status : jsstring;
  sr_output : value;
  sr_startedAt : value;
  sr_completedAt : value;
  sr_durationMs : value
}.

(** Modelled from the spec: the run that [runAll] of the missing
    HooksManager answers (3), with the two properties the handler reads. *)
Record Run := mkRun {
  run_steps : list StepResult;
  run_status : jsstring
}.

(** The object given to [addEvent]; [ev_trigger] and [ev_commandResults]
    are its metadata. *)
Record ActivityEvent := mkEvent {
  ev_category : jsstring;
  ev_type : jsstring;
  ev_severity : jsstring;
  ev_title : jsstring;
  ev_detail : text;
  ev_worktreeId : jsstring;
  ev_projectName : text;
  ev_groupKey : jsstring;
  ev_trigger : jsstring;
  ev_commandResults : list StepResult
}.

(** What the collaborators answer while one request is served:
    [manager.getProjectName() ?? undefined], [hooksManager.getConfig()],
    and the two awaited calls, which may reject.  The activity log is the
    list of the events added so far. *)
Record RunEnv := mkRunEnv {
  getProjectName : text;
  getConfig : Config;
  runAll : jsstring -> jsstring -> outcome Run;
  runSingle : jsstring -> jsstring -> outcome StepResult
}.

(** [c.json(result)] or [c.json({ success: false, error }, 500)] *)
Inductive RunReply (A : Type) :=
| Replied (result : A)
| ServerError (error : jsstring).
Arguments Replied {A} result.
Arguments ServerError {A} error.

(** The string a call of [normalizeHookTrigger] returns. *)
Definition normalized (v : value) : jsstring :=
  match normalizeHookTrigger v with
  | VStr t => t
  | _ => post_implementation
  end.

(** An optional string property as a value. *)
Definition text_value (t : text) : value :=
  match t with
  | Some s => VStr s
  | None => VUndefined
  end.

(** [body?.trigger] after [c.req.json().catch(() => ({}))] *)
Definition body_trigger (body : RequestBody) : value :=
  match body with
  | JsonObject props => get_prop props (lit "trigger")
  | _ => VUndefined
  end.

(** [step.enabled !== false] *)
Definition enabled_not_false (step : HookStep) : bool :=
  match step_enabled step with
  | Some false => false
  | _ => true
  end.

(** [`${formatHookTriggerLabel(trigger)}`] *)
Definition label_text (trigger : jsstring) : jsstring :=
  match formatHookTriggerLabel trigger with
  | Some label => label
  | None => lit "undefined"
  end.

(** [`hooks:${worktreeId}:${trigger}`] *)
Definition group_key (worktreeId trigger : jsstring) : jsstring :=
  lit "hooks:" ++ worktreeId ++ lit ":" ++ trigger.

(** The filter of the run-all handler. *)
Definition selected (trigger : jsstring) (step : HookStep) : bool :=
  enabled_not_false step && matchesTrigger step trigger
  && isRunnableCommandStep step.

(** [runnableSteps], each with [status: "running"] as the started event
    lists it. *)
Definition running_entry (step : HookStep) : StepResult :=
  mkStepResult (step_id step) (step_name step) (step_command step)
               (lit "running") VUndefined VUndefined VUndefined VUndefined.

Definition runnableSteps (config : Config) (trigger : jsstring)
    : list HookStep :=
  filter (selected trigger) (cfg_steps config).

(** [new Set(ids).has(id)] *)
Definition set_has (ids : list jsstring) (id : jsstring) : bool :=
  existsb (str_eqb id) ids.

Definition is_failed (r : StepResult) : bool :=
  str_eqb (sr_status r) (lit "failed").

(** [triggerSteps] *)
Definition triggerSteps (config : Config) (trigger : jsstring) (run : Run)
    : list StepResult :=
  filter (fun r => set_has (map step_id (runnableSteps config trigger))
                           (sr_stepId r))
         (run_steps run).

Definition started_event (worktreeId trigger : jsstring) (projectName : text)
    (results : list StepResult) : ActivityEvent :=
  mkEvent (lit "agent") (lit "hooks_started") (lit "info")
          (label_text trigger ++ lit " hooks started") None
          worktreeId projectName (group_key worktreeId trigger)
          trigger results.

Definition ran_event (worktreeId trigger : jsstring) (projectName : text)
    (severity detail : jsstring) (results : list StepResult)
    : ActivityEvent :=
  mkEvent (lit "agent") (lit "hooks_ran") severity
          (label_text trigger ++ lit " hooks completed") (Some detail)
          worktreeId projectName (group_key worktreeId trigger)
          trigger results.

(** [`${n}`] for a count *)
Definition count_text (n : nat) : jsstring := decimal (N.of_nat n).

(** POST /api/worktrees/:id/hooks/run *)
Definition runAll_route (env : RunEnv) (worktreeId : jsstring)
    (body : RequestBody) (log : list ActivityEvent)
    : RunReply Run * list ActivityEvent :=
  let trigger := normalized (body_trigger body) in
  let projectName := getProjectName env in
  let runnable := runnableSteps (getConfig env) trigger in
  let log1 :=
    log ++ [started_event worktreeId trigger projectName
              (map running_entry runnable)] in
  match runAll env worktreeId trigger with
  | Threw e =>
      (ServerError (error_message e (lit "Failed to run hooks")), log1)
  | Returned run =>
      let results := triggerSteps (getConfig env) trigger run in
      let failedCount := List.length (filter is_failed results) in
      let severity :=
        if (0 <? failedCount)%nat || str_eqb (run_status run) (lit "failed")
        then lit "error" else lit "success" in
      let detail :=
        if (List.length results =? 0)%nat
        then lit "No runnable command hooks configured for this trigger."
        else if (0 <? failedCount)%nat
        then count_text failedCount ++ lit " of "
             ++ count_text (List.length results)
             ++ lit " command hooks failed."
        else count_text (List.length results) ++ lit " command hooks passed." in
      (Replied run,
       log1 ++ [ran_event worktreeId trigger projectName severity detail
                  results])
  end.

(** POST /api/worktrees/:id/hooks/run/:stepId *)
Definition runSingle_route (env : RunEnv) (worktreeId stepId : jsstring)
    (log : list ActivityEvent)
    : RunReply StepResult * list ActivityEvent :=
  let step :=
    find (fun s => str_eqb (step_id s) stepId) (cfg_steps (getConfig env)) in
  let trigger :=
    normalized (match step with
                | Some s => text_value (step_trigger s)
                | None => VUndefined
                end) in
  let projectName := getProjectName env in
  let log1 :=
    match step with
    | Some s =>
        if enabled_not_false s && isRunnableCommandStep s
        then log ++ [started_event worktreeId trigger projectName
                       [running_entry s]]
        else log
    | None => log
    end in
  match runSingle env worktreeId stepId with
  | Threw e =>
      (ServerError (error_message e (lit "Failed to run step")), log1)
  | Returned result =>
      let severity :=
        if is_failed result then lit "error" else lit "success" in
      let detail :=
        if is_failed result then lit "1 of 1 command hooks failed."
        else lit "1 command hooks passed." in
      (Replied result,
       log1 ++ [ran_event worktreeId trigger projectName severity detail
                  [mkStepResult (sr_stepId result) (sr_stepName result)
                     (sr_command result) (sr_status result)
                     (sr_output result) (sr_startedAt result)
                     (sr_completedAt result) (sr_durationMs result)]])
  end.

(** The descriptor a skill with the given name and description is written
    as. *)
Definition render_descriptor (name description : jsstring) : jsstring :=
  join_lines [FENCE; lit "name: " ++ name;
              lit "description: " ++ description; FENCE].

(* ================================================================== *)
(** ** Notions the properties are stated with *)
(* ================================================================== *)

(** [step] with its trigger field replaced. *)
Definition with_trigger (step : HookStep) (t : text) : HookStep :=
  mkStep (step_id step) (step_name step) (step_command step) (step_kind step)
         (step_prompt step) t (step_enabled step) (step_condition step)
         (step_conditionTitle step).

(** Lines as [split] gives them: none holds a line feed. *)
Definition LF_free (ls : list jsstring) : Prop :=
  Forall (fun l => no_LF l = true) ls.

(** The value of the last line of [block] with the key, or [d]. *)
Definition last_or (key : jsstring) (block : list jsstring) (d : jsstring)
    : jsstring :=
  match find (has_key key) (rev block) with
  | Some line => line_value line
  | None => d
  end.

(** What the loop makes of a match, and of a block of lines. *)
Definition scan_match (m : option jsstring) : Frontmatter :=
  match m with
  | Some body => fold_left scan_line (split LF body) empty_frontmatter
  | None => empty_frontmatter
  end.

Definition scan_block (b : option (list jsstring)) : Frontmatter :=
  match b with
  | Some block => fold_left scan_line block empty_frontmatter
  | None => empty_frontmatter
  end.

(** The block of a descriptor as the format is documented, with the
    delimiters the parser accepts: the lines between an opening first line
    and the next line that begins with three hyphens. *)
Definition fenced_block (lines : list jsstring) : option (list jsstring) :=
  match lines with
  | first :: rest => if opening_line first then until_closing rest else None
  | [] => None
  end.

(** A block with at least one line that is not blank. *)
Definition has_text (block : list jsstring) : bool :=
  existsb (fun l => negb (blank_line l)) block.

Definition block_fields (block : list jsstring) : Frontmatter :=
  mkFrontmatter (field_of (lit "name") block)
                (field_of (lit "description") block).

(** The readable descriptor of a registry entry, when it is a directory
    that holds one. *)
Definition descriptor_of (fs : FileSystem) (registryDir : path)
    (entry : Dirent) : option jsstring :=
  let skillMdPath := registryDir ++ [entry_name entry; lit "SKILL.md"] in
  if entry_isDirectory entry && existsSync fs skillMdPath then
    match readFileSync fs skillMdPath with
    | Returned content => Some content
    | Threw _ => None
    end
  else None.

(** The records of the entries that have a readable descriptor. *)
Definition records_of (fs : FileSystem) (registryDir : path)
    (entries : list Dirent) : list AvailableSkill :=
  flat_map
    (fun entry =>
       match descriptor_of fs registryDir entry with
       | Some content => [skill_record (entry_name entry) content]
       | None => []
       end)
    entries.

(* ================================================================== *)
(** ** Sample data *)
(* ================================================================== *)

(** The content whose lines are the given literals. *)
Definition lines_of (ls : list string) : jsstring := join_lines (map lit ls).

Definition lint_descriptor : jsstring :=
  lines_of ["---"; "name: Lint"; "description: Runs the linter";
            "license: MIT"; "---"; "# Lint"; ""]%string.

(** The closing line has four hyphens. *)
Definition unclosed_descriptor : jsstring :=
  lines_of ["---"; "name: lint"; "----"]%string.

(** An empty block, then text that looks like a second block. *)
Definition shadowed_descriptor : jsstring :=
  lines_of ["---"; ""; "---"; "name: later"; "---"]%string.

Fixpoint path_eqb (p q : path) : bool :=
  match p, q with
  | [], [] => true
  | a :: p', b :: q' => str_eqb a b && path_eqb p' q'
  | _, _ => false
  end.

(** A sample registry under the home directory [/home/dev]: a skill with a
    descriptor, a plain file, a directory with no descriptor, and a
    directory whose descriptor cannot be read. *)
Definition sample_home : path := [lit "/home/dev"].
Definition sample_registry : path := sample_home ++ [lit ".dawg"; lit "skills"].

Definition sample_fs : FileSystem :=
  mkFileSystem
    (fun p =>
       path_eqb p sample_registry
       || path_eqb p (sample_registry ++ [lit "lint"; lit "SKILL.md"])
       || path_eqb p (sample_registry ++ [lit "locked"; lit "SKILL.md"]))
    (fun p =>
       if path_eqb p sample_registry
       then Returned [mkDirent (lit "lint") true;
                      mkDirent (lit "notes.txt") false;
                      mkDirent (lit "empty") true;
                      mkDirent (lit "locked") true]
       else Threw (ThrownError (lit "ENOENT")))
    (fun p =>
       if path_eqb p (sample_registry ++ [lit "lint"; lit "SKILL.md"])
       then Returned lint_descriptor
       else Threw (ThrownError (lit "EACCES"))).

(** Sample steps: one saved before the trigger field existed, one whose
    trigger is the empty string. *)
Definition legacy_step : HookStep :=
  mkStep (lit "s1") (lit "lint") (Some (lit "npm run lint"))
         None None None None None None.

Definition empty_trigger_step : HookStep :=
  mkStep (lit "s2") (lit "test") (Some (lit "npm test"))
         None None (Some []) None None None.

(** A sample manager state with one step. *)
Definition sample_manager : Manager :=
  mkManager (mkConfig [legacy_step] []) 7 [].

(** Sample request bodies. *)
Definition lint_request : RequestBody :=
  JsonObject [(lit "name", VStr (lit "lint"));
              (lit "command", VStr (lit "run lint"))].

Definition nameless_request : RequestBody :=
  JsonObject [(lit "command", VStr (lit "run lint"))].

(** A request whose condition is the number 0. *)
Definition numeric_condition_request : RequestBody :=
  JsonObject [(lit "name", VStr (lit "lint"));
              (lit "command", VStr (lit "run lint"));
              (lit "condition", VNum (S754_zero false))].

Definition start_report : RequestBody :=
  JsonObject [(lit "skillName", VStr (lit "review"));
              (lit "trigger", VStr (lit "custom"))].

Definition result_report : RequestBody :=
  JsonObject [(lit "skillName", VStr (lit "review"));
              (lit "trigger", VStr (lit "custom"));
              (lit "success", VBool false);
              (lit "summary", VStr (lit "2 issues"))].

Definition untyped_report : RequestBody :=
  JsonObject [(lit "skillName", VStr (lit "review"));
              (lit "success", VStr (lit "yes"))].

Definition sample_time : jsstring := lit "2025-01-01T00:00:00.000Z".

(* ================================================================== *)
(** ** Notions the further properties are stated with *)
(* ================================================================== *)

(** A field as the loop leaves it: trimmed, and on one line. *)
Definition clean_field (f : jsstring) : Prop :=
  trim f = f /\ no_LF f = true.

(** An entry the listing has a record for. *)
Definition has_descriptor (fs : FileSystem) (registryDir : path)
    (entry : Dirent) : bool :=
  match descriptor_of fs registryDir entry with
  | Some _ => true
  | None => false
  end.

(** Sample run data: a config with a runnable step, a prompt step, a
    disabled step and a pre-implementation step. *)
Definition sample_steps : list HookStep :=
  [mkStep (lit "a") (lit "lint") (Some (lit "npm run lint"))
          None None None None None None;
   mkStep (lit "b") (lit "review") (Some (lit "echo"))
          (Some (lit "prompt")) (Some (lit "Review")) None None None None;
   mkStep (lit "c") (lit "build") (Some (lit "make"))
          None None (Some post_implementation) (Some false) None None;
   mkStep (lit "d") (lit "audit") (Some (lit "npm audit"))
          None None (Some pre_implementation) None None None].

Definition running_step_a : HookStep :=
  mkStep (lit "a") (lit "lint") (Some (lit "npm run lint"))
         None None None None None None.

Definition result_of (id status : string) : StepResult :=
  mkStepResult (lit id) (lit id) None (lit status)
               VUndefined VUndefined VUndefined VUndefined.

(** The manager answers a run in which the prompt step [b] failed. *)
Definition sample_env : RunEnv :=
  mkRunEnv (Some (lit "dawg")) (mkConfig sample_steps [])
           (fun _ _ => Returned (mkRun [result_of "a" "passed";
                                         result_of "b" "failed"]
                                        (lit "failed")))
           (fun _ id => if str_eqb id (lit "zzz")
                        then Threw (ThrownError (lit "Step not found"))
                        else Returned (result_of "c" "passed")).

(** [step && step.enabled !== false && isRunnableCommandStep(step)] *)
Definition announced (step : option HookStep) : bool :=
  match step with
  | Some s => enabled_not_false s && isRunnableCommandStep s
  | None => false
  end.

(** [steps.find((s) => s.id === stepId)] *)
Definition find_step (config : Config) (stepId : jsstring)
    : option HookStep :=
  find (fun s => str_eqb (step_id s) stepId) (cfg_steps config).

(** An optional field of a stored report: left out, or truthy. *)
Definition optional_field (v : value) : Prop :=
  v = VUndefined \/ truthy v = true.

(** A record whose status and success flag tell the same story. *)
Definition coherent_result (now : jsstring) (r : SkillHookResult) : Prop :=
  truthy (r_skillName r) = true
  /\ r_reportedAt r = now
  /\ match r_success r with
     | None =>
         r_status r = running
         /\ r_summary r = VUndefined /\ r_content r = VUndefined
         /\ r_filePath r = VUndefined
     | Some b =>
         r_status r = (if b then passed else failed)
         /\ optional_field (r_summary r) /\ optional_field (r_content r)
         /\ optional_field (r_filePath r)
     end.

(** What the add-step handler lets through to the manager. *)
Definition accepted_step (name command : value) (opts : StepOptions) : Prop :=
  truthy name = true
  /\ if strict_eq_str (o_kind opts) (lit "prompt")
     then command = VStr [] /\ truthy (o_prompt opts) = true
     else truthy command = true.

(** Carriage return. *)
Definition CR : code_unit := 13.

(** [lines.join("\r\n")] *)
Fixpoint join_crlf (ls : list jsstring) : jsstring :=
  match ls with
  | [] => []
  | [l] => l
  | l :: ls' => l ++ CR :: LF :: join_crlf ls'
  end.

(** A line, or the same line with a carriage return at its end. *)
Definition cr_variant (l l' : jsstring) : Prop := l' = l \/ l' = l ++ [CR].

(** The lines of a CRLF file as a split at line feeds sees them. *)
Fixpoint with_returns (ls : list jsstring) : list jsstring :=
  match ls with
  | [] => []
  | [l] => [l]
  | l :: ls' => (l ++ [CR]) :: with_returns ls'
  end.

(* ================================================================== *)
(** * Properties *)
(* ================================================================== *)

(** ** Strings *)

Lemma str_eqb_eq (a b : jsstring) : str_eqb a b = true <-> a = b.
Proof.
  revert b; induction a as [|x a IH]; intros [|y b]; simpl;
    try (split; [discriminate | discriminate]); try tauto.
  rewrite andb_true_iff, N.eqb_eq, IH.
  split; [intros [-> ->]; reflexivity | intros E; inversion E; auto].
Qed.

Lemma str_eqb_refl (a : jsstring) : str_eqb a a = true.
Proof. apply str_eqb_eq; reflexivity. Qed.

Lemma str_eqb_neq (a b : jsstring) : str_eqb a b = false <-> a <> b.
Proof.
  rewrite <- str_eqb_eq. destruct (str_eqb a b); split; congruence.
Qed.

Lemma trimStart_nil_iff (s : jsstring) :
  trimStart s = [] <-> blank_line s = true.
Proof.
  induction s as [|c s IH]; simpl; [tauto|].
  destruct (is_whitespace c); simpl; [exact IH | split; discriminate].
Qed.

Lemma blank_line_rev (s : jsstring) : blank_line (rev s) = blank_line s.
Proof.
  unfold blank_line. induction s as [|c s IH]; simpl; [reflexivity|].
  rewrite forallb_app, IH. simpl. rewrite andb_true_r. apply andb_comm.
Qed.

Lemma trimStart_blank_nil (s : jsstring) :
  blank_line (trimStart s) = true -> trimStart s = [].
Proof.
  induction s as [|c s IH]; simpl; [reflexivity|].
  destruct (is_whitespace c) eqn:E; [exact IH|].
  simpl. rewrite E. discriminate.
Qed.

(** [trim] gives the empty string exactly on whitespace-only strings. *)
Lemma trim_nil_iff (s : jsstring) : trim s = [] <-> blank_line s = true.
Proof.
  unfold trim, trimEnd. split.
  - intros E. apply (f_equal (@rev _)) in E. rewrite rev_involutive in E.
    simpl in E. apply trimStart_nil_iff in E. rewrite blank_line_rev in E.
    apply trimStart_nil_iff. apply trimStart_blank_nil. exact E.
  - intros E. apply trimStart_nil_iff in E. rewrite E. reflexivity.
Qed.

Lemma text_truthy_trim (t : text) :
  text_truthy (opt_trim t) = true <-> exists c, t = Some c /\ trim c <> [].
Proof.
  destruct t as [c|]; simpl.
  - destruct (trim c) eqn:E; split.
    + discriminate.
    + intros [c' [Hc Hn]]. inversion Hc; subst. congruence.
    + intros _. exists c. split; [reflexivity | congruence].
    + reflexivity.
  - split; [discriminate | intros [c [Hc _]]; discriminate].
Qed.

Example trim_example :
  trim (lit "  npm test ") = lit "npm test"
  /\ trim ([13; 10] ++ lit "x" ++ [8232; 160]) = lit "x"
  /\ trim (lit "   ") = [].
Proof. repeat split. Qed.

Example split_example :
  split LF (lines_of ["a"; ""; "b"]%string) = map lit ["a"; ""; "b"]%string
  /\ split LF [] = [[]].
Proof. repeat split. Qed.

Example indexOf_slice_example :
  indexOf COLON (lit "name: x") = 4%Z
  /\ indexOf COLON (lit "none") = (-1)%Z
  /\ slice (lit "name: x") 0 4 = lit "name"
  /\ slice_from (lit "name: x") 5 = lit " x"
  /\ slice (lit "abc") (-2) 3 = lit "bc".
Proof. repeat split. Qed.

(** ** Trigger model *)

Lemma in_hook_triggers (t : jsstring) :
  In t hook_triggers <->
  t = pre_implementation \/ t = post_implementation \/ t = custom \/ t = on_demand.
Proof. unfold hook_triggers; simpl; intuition congruence. Qed.

(** The two ways [normalizeHookTrigger] leaves. *)
Lemma normalizeHookTrigger_cases (v : value) :
  (exists t, In t hook_triggers /\ v = VStr t /\ normalizeHookTrigger v = v)
  \/ ((forall t, In t hook_triggers -> v <> VStr t)
      /\ normalizeHookTrigger v = VStr post_implementation).
Proof.
  unfold normalizeHookTrigger.
  destruct v as [| |b|x|s|j];
    try (right; split; [intros t _; discriminate | reflexivity]).
  unfold strict_eq_str.
  destruct (str_eqb s pre_implementation) eqn:E1;
    [apply str_eqb_eq in E1; left; exists s; rewrite in_hook_triggers; auto|].
  destruct (str_eqb s post_implementation) eqn:E2;
    [apply str_eqb_eq in E2; left; exists s; rewrite in_hook_triggers; auto|].
  destruct (str_eqb s custom) eqn:E3;
    [apply str_eqb_eq in E3; left; exists s; rewrite in_hook_triggers; auto|].
  destruct (str_eqb s on_demand) eqn:E4;
    [apply str_eqb_eq in E4; left; exists s; rewrite in_hook_triggers; auto|].
  right. split; [|reflexivity].
  apply str_eqb_neq in E1, E2, E3, E4.
  intros t Ht Heq. inversion Heq; subst t.
  apply in_hook_triggers in Ht. intuition.
Qed.

(** C1: for every input that is not one of the four recognized literals
    [normalizeHookTrigger] returns "post-implementation", and each of the
    four literals is returned unchanged. *)
Theorem normalizeHookTrigger_spec (v : value) :
  ((forall t, In t hook_triggers -> v <> VStr t) ->
   normalizeHookTrigger v = VStr post_implementation)
  /\ ((exists t, In t hook_triggers /\ v = VStr t) ->
      normalizeHookTrigger v = v).
Proof.
  destruct (normalizeHookTrigger_cases v) as [[t [Ht [Hv E]]] | [Hn E]]; split.
  - intros Hn. exfalso. exact (Hn t Ht Hv).
  - intros _. exact E.
  - intros _. exact E.
  - intros [t [Ht Hv]]. exfalso. exact (Hn t Ht Hv).
Qed.

Lemma normalizeHookTrigger_spec_witness :
  normalizeHookTrigger (VNum S754_nan) = VStr post_implementation
  /\ normalizeHookTrigger (VStr (lit "on-demand")) = VStr (lit "on-demand").
Proof.
  split.
  - apply (proj1 (normalizeHookTrigger_spec (VNum S754_nan))).
    intros t _; discriminate.
  - apply (proj2 (normalizeHookTrigger_spec (VStr (lit "on-demand")))).
    exists on_demand. split; [simpl; auto | reflexivity].
Defined.

Lemma hook_triggers_lowercase (t : jsstring) :
  In t hook_triggers -> map ascii_lower t = t.
Proof.
  rewrite in_hook_triggers. intros [-> | [-> | [-> | ->]]]; reflexivity.
Qed.

(** C9: the comparison is case-sensitive string equality: an input that
    differs from a recognized literal only in letter case is not recognized
    and is normalized to "post-implementation". *)
Theorem normalizeHookTrigger_case_sensitive (s t : jsstring) :
  In t hook_triggers -> s <> t -> same_ignoring_case s t ->
  normalizeHookTrigger (VStr s) = VStr post_implementation.
Proof.
  intros Ht Hne Hcase.
  destruct (normalizeHookTrigger_cases (VStr s)) as [[t' [Ht' [Hv _]]] | [_ E]];
    [|exact E].
  exfalso. apply Hne. inversion Hv; subst t'.
  unfold same_ignoring_case in Hcase.
  rewrite (hook_triggers_lowercase s Ht'), (hook_triggers_lowercase t Ht) in Hcase.
  exact Hcase.
Qed.

Lemma normalizeHookTrigger_case_sensitive_witness :
  normalizeHookTrigger (VStr (lit "Pre-Implementation"))
    = VStr post_implementation
  /\ normalizeHookTrigger (VStr (lit "CUSTOM")) = VStr post_implementation.
Proof.
  split.
  - apply (normalizeHookTrigger_case_sensitive
             (lit "Pre-Implementation") pre_implementation).
    + simpl; auto.
    + discriminate.
    + reflexivity.
  - apply (normalizeHookTrigger_case_sensitive (lit "CUSTOM") custom).
    + simpl; auto.
    + discriminate.
    + reflexivity.
Defined.

Lemma text_is_eq (t : text) (s : jsstring) : text_is t s = true <-> t = Some s.
Proof.
  destruct t as [s'|]; simpl; [|split; discriminate].
  rewrite str_eqb_eq. split; [intros ->; reflexivity | intros E; inversion E; auto].
Qed.

Lemma matchesTrigger_post (step : HookStep) :
  matchesTrigger step post_implementation
  = text_is (step_trigger step) post_implementation
    || negb (text_truthy (step_trigger step)).
Proof. unfold matchesTrigger. rewrite str_eqb_refl. reflexivity. Qed.

Lemma matchesTrigger_other (step : HookStep) (t : jsstring) :
  t <> post_implementation ->
  matchesTrigger step t = text_is (step_trigger step) t.
Proof.
  intros Hne. unfold matchesTrigger.
  apply str_eqb_neq in Hne. rewrite Hne. reflexivity.
Qed.

(** C2: a request for "post-implementation" matches a step whose trigger is
    "post-implementation" or unset, and no step whose trigger is another
    non-empty string (the leniency is for a trigger that is unset, or, as
    the test is falsiness, empty); any other requested trigger matches
    only a step whose trigger equals it exactly, so a step with no trigger
    matches post-implementation requests and no others. *)
Theorem matchesTrigger_spec (step : HookStep) :
  ((step_trigger step = Some post_implementation \/ step_trigger step = None) ->
   matchesTrigger step post_implementation = true)
  /\ (matchesTrigger step post_implementation = true <->
      step_trigger step = Some post_implementation
      \/ step_trigger step = None \/ step_trigger step = Some [])
  /\ (forall t, In t [pre_implementation; custom; on_demand] ->
        step_trigger step = Some t ->
        matchesTrigger step post_implementation = false)
  /\ (forall t, In t [pre_implementation; custom; on_demand] ->
        (matchesTrigger step t = true <-> step_trigger step = Some t))
  /\ (step_trigger step = None ->
      forall t, In t hook_triggers ->
        (matchesTrigger step t = true <-> t = post_implementation)).
Proof.
  assert (Hpost : matchesTrigger step post_implementation = true <->
                  step_trigger step = Some post_implementation
                  \/ step_trigger step = None \/ step_trigger step = Some []).
  { rewrite matchesTrigger_post, orb_true_iff, text_is_eq, negb_true_iff.
    destruct (step_trigger step) as [[|c s]|]; cbn [text_truthy];
      intuition (try discriminate; auto). }
  split; [|split; [exact Hpost|split; [|split]]].
  - rewrite matchesTrigger_post. intros [E | E]; rewrite E; reflexivity.
  - intros t Ht E. apply not_true_iff_false. rewrite Hpost, E.
    simpl in Ht. intros [H | [H | H]]; injection H as H || discriminate H;
      subst t; intuition discriminate.
  - intros t Ht. rewrite matchesTrigger_other, text_is_eq; [tauto|].
    simpl in Ht. intros ->. intuition discriminate.
  - intros E t Ht. split.
    + intros Hm. destruct (jsstring_eq_dec t post_implementation) as [|Hne];
        [assumption|].
      rewrite (matchesTrigger_other step t Hne), E in Hm. discriminate.
    + intros ->. rewrite matchesTrigger_post, E. reflexivity.
Qed.

Lemma matchesTrigger_spec_witness :
  matchesTrigger legacy_step post_implementation = true
  /\ matchesTrigger legacy_step custom = false
  /\ matchesTrigger (with_trigger legacy_step (Some custom))
                    post_implementation = false.
Proof.
  split; [|split].
  - apply (proj1 (matchesTrigger_spec legacy_step)). right. reflexivity.
  - apply not_true_iff_false. intros Hm.
    apply (proj2 (proj2 (proj2 (proj2 (matchesTrigger_spec legacy_step))))
             eq_refl custom) in Hm;
      [discriminate | simpl; auto].
  - apply (proj1 (proj2 (proj2 (matchesTrigger_spec
                                  (with_trigger legacy_step (Some custom)))))
             custom); [simpl; auto | reflexivity].
Defined.

(** C10: a step whose trigger field is the empty string is treated like a
    step with no trigger: it matches a "post-implementation" request and
    no other requested trigger. *)
Theorem matchesTrigger_empty_trigger (step : HookStep) (t : jsstring) :
  step_trigger step = Some [] -> In t hook_triggers ->
  matchesTrigger step t = matchesTrigger (with_trigger step None) t
  /\ (matchesTrigger step t = true <-> t = post_implementation).
Proof.
  intros E Ht.
  destruct (jsstring_eq_dec t post_implementation) as [-> | Hne].
  - rewrite !matchesTrigger_post, E. simpl. split; [reflexivity | tauto].
  - assert (Hf : str_eqb [] t = false).
    { apply str_eqb_neq. intros <-. apply in_hook_triggers in Ht.
      intuition discriminate. }
    rewrite !matchesTrigger_other, E by assumption.
    unfold with_trigger; cbn [step_trigger text_is]. rewrite Hf. split; [reflexivity | split; [discriminate | contradiction]].
Qed.

Lemma matchesTrigger_empty_trigger_witness :
  (matchesTrigger empty_trigger_step post_implementation = true <->
   post_implementation = post_implementation)
  /\ (matchesTrigger empty_trigger_step on_demand = true <->
      on_demand = post_implementation).
Proof.
  split.
  - apply (matchesTrigger_empty_trigger empty_trigger_step post_implementation);
      [reflexivity | simpl; auto].
  - apply (matchesTrigger_empty_trigger empty_trigger_step on_demand);
      [reflexivity | simpl; auto].
Defined.

(** C3: a step is runnable iff its kind is not "prompt" and its command,
    trimmed, is non-empty.  So a step of kind "prompt" is never runnable,
    a step with an unset, empty or whitespace-only command is never
    runnable, and a step with both a command and prompt text is runnable
    unless its kind is "prompt". *)
Theorem isRunnableCommandStep_spec (step : HookStep) :
  (isRunnableCommandStep step = true <->
   step_kind step <> Some (lit "prompt")
   /\ exists c, step_command step = Some c /\ trim c <> [])
  /\ (step_kind step = Some (lit "prompt") ->
      isRunnableCommandStep step = false)
  /\ ((forall c, step_command step = Some c -> blank_line c = true) ->
      isRunnableCommandStep step = false)
  /\ (forall c p, step_command step = Some c -> trim c <> [] ->
        step_prompt step = Some p -> p <> [] ->
        (isRunnableCommandStep step = true <->
         step_kind step <> Some (lit "prompt"))).
Proof.
  assert (Hiff : isRunnableCommandStep step = true <->
                 step_kind step <> Some (lit "prompt")
                 /\ exists c, step_command step = Some c /\ trim c <> []).
  { unfold isRunnableCommandStep. rewrite <- text_truthy_trim.
    destruct (text_truthy (opt_trim (step_command step)));
      rewrite ?andb_false_r, ?andb_true_r, ?orb_false_r; simpl.
    - rewrite negb_true_iff, <- not_true_iff_false, text_is_eq. tauto.
    - split; [discriminate | intros [_ F]; discriminate]. }
  split; [exact Hiff|]. split; [|split].
  - intros Hk. apply not_true_iff_false. rewrite Hiff. tauto.
  - intros Hb. apply not_true_iff_false. rewrite Hiff.
    intros [_ [c [Hc Hn]]]. apply Hn. apply trim_nil_iff. auto.
  - intros c p Hc Hn _ _. rewrite Hiff. split; [tauto|].
    intros Hk. split; [exact Hk | exists c; auto].
Qed.

Lemma isRunnableCommandStep_spec_witness :
  isRunnableCommandStep
    (mkStep (lit "s3") (lit "review") (Some (lit "npm test"))
            (Some (lit "prompt")) (Some (lit "Review the diff"))
            None None None None) = false
  /\ isRunnableCommandStep
       (mkStep (lit "s4") (lit "blank") (Some (lit "   "))
               (Some (lit "command")) None None None None None) = false.
Proof.
  split.
  - apply (proj1 (proj2 (isRunnableCommandStep_spec _))). reflexivity.
  - apply (proj1 (proj2 (proj2 (isRunnableCommandStep_spec _)))).
    intros c Hc. inversion Hc; subst c. reflexivity.
Defined.

(** ** SKILL.md frontmatter *)


Lemma FENCE_eq : FENCE = [45; 45; 45].
Proof. reflexivity. Qed.

Lemma split_not_nil (s : jsstring) : split LF s <> [].
Proof.
  destruct s as [|c s]; simpl; [discriminate|].
  destruct (c =? LF); [discriminate|].
  destruct (split LF s); discriminate.
Qed.

Lemma join_lines_cons (l : jsstring) (ls : list jsstring) :
  join_lines (l :: ls) =
  match ls with [] => l | _ :: _ => l ++ LF :: join_lines ls end.
Proof. reflexivity. Qed.

Lemma join_split (s : jsstring) : join_lines (split LF s) = s.
Proof.
  induction s as [|c s IH]; [reflexivity|].
  cbn [split]. destruct (c =? LF) eqn:E.
  - apply N.eqb_eq in E. subst c. rewrite join_lines_cons.
    destruct (split LF s) eqn:Es; [exfalso; exact (split_not_nil s Es)|].
    rewrite IH. reflexivity.
  - destruct (split LF s) as [|piece rest] eqn:Es;
      [exfalso; exact (split_not_nil s Es)|].
    rewrite join_lines_cons in *. destruct rest; simpl; rewrite <- IH; reflexivity.
Qed.

Lemma split_LF_free (s : jsstring) : LF_free (split LF s).
Proof.
  unfold LF_free. induction s as [|c s IH]; cbn [split].
  - constructor; [reflexivity | constructor].
  - destruct (c =? LF) eqn:E.
    + constructor; [reflexivity | exact IH].
    + destruct (split LF s) as [|piece rest]; [repeat constructor; simpl; rewrite E; reflexivity|].
      inversion IH; subst. constructor; [|assumption].
      simpl. rewrite E. assumption.
Qed.

Lemma split_line (l : jsstring) : no_LF l = true -> split LF l = [l].
Proof.
  induction l as [|c l IH]; [reflexivity|].
  simpl. intros H. apply andb_true_iff in H as [Hc Hl].
  apply negb_true_iff in Hc. rewrite Hc, (IH Hl). reflexivity.
Qed.

Lemma split_line_app (l r : jsstring) :
  no_LF l = true -> split LF (l ++ LF :: r) = l :: split LF r.
Proof.
  induction l as [|c l IH]; intros H.
  - simpl. reflexivity.
  - simpl in H. apply andb_true_iff in H as [Hc Hl].
    apply negb_true_iff in Hc. simpl. rewrite Hc, (IH Hl). reflexivity.
Qed.

Lemma split_join (l : jsstring) (ls : list jsstring) :
  LF_free (l :: ls) -> split LF (join_lines (l :: ls)) = l :: ls.
Proof.
  revert l. induction ls as [|l1 ls IH]; intros l H; inversion H; subst.
  - apply split_line. assumption.
  - rewrite join_lines_cons, split_line_app by assumption.
    rewrite IH by assumption. reflexivity.
Qed.

Lemma starts_fence_app (l r : jsstring) :
  no_LF l = true ->
  starts_with FENCE (l ++ LF :: r) = starts_with FENCE l.
Proof.
  rewrite FENCE_eq. intros H.
  destruct l as [|a [|b [|c l]]]; simpl in *;
    rewrite ?andb_false_r; reflexivity.
Qed.

Lemma starts_fence_join (l : jsstring) (ls : list jsstring) :
  no_LF l = true ->
  starts_with FENCE (join_lines (l :: ls)) = starts_with FENCE l.
Proof.
  intros H. rewrite join_lines_cons. destruct ls; [reflexivity|].
  apply starts_fence_app; assumption.
Qed.

Lemma lazy_until_close_eq (s : jsstring) :
  lazy_until_close s =
  if starts_with (LF :: FENCE) s then Some []
  else match s with
       | [] => None
       | c :: s' => option_map (cons c) (lazy_until_close s')
       end.
Proof. destruct s; reflexivity. Qed.

Lemma lazy_line_app (l r : jsstring) :
  no_LF l = true ->
  lazy_until_close (l ++ r) = option_map (app l) (lazy_until_close r).
Proof.
  induction l as [|c l IH]; intros H.
  - simpl. destruct (lazy_until_close r); reflexivity.
  - simpl in H. apply andb_true_iff in H as [Hc Hl].
    apply negb_true_iff in Hc.
    rewrite <- app_comm_cons, lazy_until_close_eq.
    cbn [starts_with]. rewrite N.eqb_sym, Hc. cbn [andb].
    rewrite (IH Hl). destruct (lazy_until_close r); reflexivity.
Qed.

Lemma lazy_line (l : jsstring) : no_LF l = true -> lazy_until_close l = None.
Proof.
  intros H. rewrite <- (app_nil_r l), lazy_line_app by assumption. reflexivity.
Qed.

Lemma lazy_join (l : jsstring) (ls : list jsstring) :
  LF_free (l :: ls) ->
  lazy_until_close (join_lines (l :: ls))
  = option_map (fun block => join_lines (l :: block)) (until_closing ls).
Proof.
  revert l. induction ls as [|l1 ls IH]; intros l H; inversion H; subst.
  - simpl. apply lazy_line. assumption.
  - rewrite join_lines_cons, lazy_line_app by assumption.
    rewrite lazy_until_close_eq. cbn [starts_with].
    rewrite N.eqb_refl. cbn [andb].
    inversion H3; subst.
    rewrite starts_fence_join by assumption.
    cbn [until_closing]. unfold closing_line.
    destruct (starts_with FENCE l1).
    + simpl. rewrite app_nil_r. reflexivity.
    + rewrite (IH l1 H3). destruct (until_closing ls); reflexivity.
Qed.

Lemma after_fence_LF (s : jsstring) :
  after_fence (LF :: s) =
  match after_fence s with
  | Some body => Some body
  | None => lazy_until_close s
  end.
Proof. reflexivity. Qed.

Lemma after_fence_not_blank (w r : jsstring) :
  no_LF w = true -> blank_line w = false -> after_fence (w ++ r) = None.
Proof.
  induction w as [|c w IH]; intros H Hb; [discriminate|].
  simpl in H. apply andb_true_iff in H as [Hc Hl].
  apply negb_true_iff in Hc.
  simpl in Hb. rewrite <- app_comm_cons. cbn [after_fence]. rewrite Hc.
  destruct (is_whitespace c); [|reflexivity].
  rewrite (IH Hl Hb). reflexivity.
Qed.

Lemma after_fence_blank (w r : jsstring) :
  no_LF w = true -> blank_line w = true ->
  after_fence (w ++ r) = after_fence r.
Proof.
  induction w as [|c w IH]; intros H Hb; [reflexivity|].
  simpl in H. apply andb_true_iff in H as [Hc Hl].
  apply negb_true_iff in Hc.
  simpl in Hb. apply andb_true_iff in Hb as [Hw Hb].
  rewrite <- app_comm_cons. cbn [after_fence]. rewrite Hc, Hw.
  rewrite (IH Hl Hb). destruct (after_fence r); reflexivity.
Qed.

(** [after_fence] from inside a line [w] that the lines [ls] follow. *)
Lemma after_fence_join (w : jsstring) (ls : list jsstring) :
  no_LF w = true ->
  after_fence (join_lines (w :: ls)) =
  if blank_line w then
    match ls with
    | [] => None
    | _ :: _ =>
        match after_fence (join_lines ls) with
        | Some body => Some body
        | None => lazy_until_close (join_lines ls)
        end
    end
  else None.
Proof.
  intros H. rewrite join_lines_cons.
  destruct (blank_line w) eqn:Hb.
  - destruct ls as [|l1 ls].
    + rewrite <- (app_nil_r w), after_fence_blank by assumption. reflexivity.
    + rewrite after_fence_blank by assumption. apply after_fence_LF.
  - destruct ls as [|l1 ls].
    + rewrite <- (app_nil_r w). apply after_fence_not_blank; assumption.
    + apply after_fence_not_blank; assumption.
Qed.

Lemma scan_line_eq (acc : Frontmatter) (line : jsstring) :
  scan_line acc line =
  match line_key line with
  | None => acc
  | Some k =>
      mkFrontmatter
        (if str_eqb k (lit "name") then line_value line else fm_name acc)
        (if str_eqb k (lit "description") then line_value line
         else fm_description acc)
  end.
Proof.
  unfold scan_line, line_key, line_value.
  destruct (indexOf COLON line <=? 0)%Z; [reflexivity|].
  destruct (str_eqb _ (lit "name")), (str_eqb _ (lit "description"));
    destruct acc; reflexivity.
Qed.


Lemma fold_scan_line (block : list jsstring) (acc : Frontmatter) :
  fold_left scan_line block acc =
  mkFrontmatter (last_or (lit "name") block (fm_name acc))
                (last_or (lit "description") block (fm_description acc)).
Proof.
  induction block as [|l block IH] using rev_ind.
  - destruct acc; reflexivity.
  - rewrite fold_left_app. cbn [fold_left]. rewrite scan_line_eq, IH.
    unfold last_or. rewrite rev_app_distr. cbn [rev app find].
    assert (Hk : forall key, has_key key l =
                  match line_key l with
                  | Some k => str_eqb k key
                  | None => false
                  end) by reflexivity.
    rewrite !Hk. destruct (line_key l) as [k|]; [|reflexivity].
    cbn [fm_name fm_description].
    destruct (str_eqb k (lit "name")), (str_eqb k (lit "description"));
      reflexivity.
Qed.

Lemma blank_line_no_colon (l : jsstring) :
  blank_line l = true -> indexOf COLON l = (-1)%Z.
Proof.
  induction l as [|c l IH]; [reflexivity|].
  simpl. intros H. apply andb_true_iff in H as [Hc Hl].
  destruct (c =? COLON) eqn:E.
  - apply N.eqb_eq in E. subst c. discriminate Hc.
  - rewrite (IH Hl). reflexivity.
Qed.

Lemma scan_blank_line (acc : Frontmatter) (l : jsstring) :
  blank_line l = true -> scan_line acc l = acc.
Proof.
  intros H. unfold scan_line. rewrite (blank_line_no_colon l H). reflexivity.
Qed.


Lemma until_closing_LF_free (ls block : list jsstring) :
  LF_free ls -> until_closing ls = Some block -> LF_free block.
Proof.
  revert block. induction ls as [|l ls IH]; intros block H E; [discriminate|].
  inversion H; subst. simpl in E. destruct (closing_line l).
  - inversion E. constructor.
  - destruct (until_closing ls) as [b|]; [|discriminate].
    inversion E. constructor; [assumption | apply IH; auto].
Qed.

Lemma scan_lazy_join (l : jsstring) (ls : list jsstring) :
  LF_free (l :: ls) ->
  scan_match (lazy_until_close (join_lines (l :: ls)))
  = scan_block (option_map (cons l) (until_closing ls)).
Proof.
  intros H. rewrite lazy_join by assumption.
  destruct (until_closing ls) as [block|] eqn:E; [|reflexivity].
  cbn [option_map]. unfold scan_match, scan_block.
  rewrite split_join; [reflexivity|].
  inversion H; subst. constructor; [assumption|].
  eapply until_closing_LF_free; eassumption.
Qed.

(** The backtracking of [\s*] over blank lines and the reading of the file
    by lines agree on what the loop extracts. *)
Lemma scan_after_fence (ls : list jsstring) (w : jsstring) :
  no_LF w = true -> blank_line w = true -> LF_free ls ->
  scan_match (after_fence (join_lines (w :: ls)))
  = scan_block (block_after_opening ls).
Proof.
  revert w. induction ls as [|l1 ls IH]; intros w Hw Hb H.
  - rewrite after_fence_join, Hb by assumption. reflexivity.
  - rewrite after_fence_join, Hb by assumption.
    inversion H as [|? ? Hl1 Hls]; subst.
    cbn [block_after_opening].
    destruct (blank_line l1) eqn:Hb1.
    + specialize (IH l1 Hl1 Hb1 Hls).
      destruct (after_fence (join_lines (l1 :: ls))) as [body|] eqn:Ea;
        [exact IH|].
      rewrite <- IH. rewrite scan_lazy_join by assumption.
      rewrite after_fence_join, Hb1 in Ea by assumption.
      destruct ls as [|l2 ls']; [reflexivity|].
      destruct (after_fence (join_lines (l2 :: ls'))); [discriminate|].
      inversion Hls; subst.
      rewrite lazy_join in Ea by assumption.
      cbn [until_closing]. destruct (closing_line l2).
      * simpl. apply scan_blank_line. assumption.
      * destruct (until_closing ls'); [discriminate | reflexivity].
    + rewrite after_fence_join, Hb1 by assumption.
      apply scan_lazy_join. assumption.
Qed.

Lemma starts_fence_skipn (l : jsstring) :
  starts_with FENCE l = true -> l = FENCE ++ skipn 3 l.
Proof.
  rewrite FENCE_eq. destruct l as [|a [|b [|c l]]]; cbn [starts_with skipn app];
    rewrite ?andb_false_r; try discriminate.
  rewrite !andb_true_iff, !N.eqb_eq. intros [<- [<- [<- _]]]. reflexivity.
Qed.

Lemma parseSkillFrontmatter_lines (first : jsstring) (rest : list jsstring) :
  LF_free (first :: rest) ->
  parseSkillFrontmatter (join_lines (first :: rest))
  = descriptor_fields (first :: rest).
Proof.
  intros H. inversion H as [|? ? Hf Hr]; subst.
  unfold parseSkillFrontmatter, frontmatter_match, descriptor_fields,
    leading_block, opening_line.
  rewrite starts_fence_join by assumption.
  destruct (starts_with FENCE first) eqn:Es; [|reflexivity].
  cbn [andb].
  assert (Hj : skipn 3 (join_lines (first :: rest))
               = join_lines (skipn 3 first :: rest)).
  { rewrite (starts_fence_skipn first Es) at 1. rewrite FENCE_eq.
    rewrite !join_lines_cons. destruct rest; reflexivity. }
  rewrite Hj.
  assert (Hw : no_LF (skipn 3 first) = true).
  { rewrite (starts_fence_skipn first Es) in Hf.
    unfold no_LF in *. rewrite forallb_app in Hf.
    apply andb_true_iff in Hf. tauto. }
  destruct (blank_line (skipn 3 first)) eqn:Hb.
  - change (scan_match (after_fence (join_lines (skipn 3 first :: rest)))
            = match block_after_opening rest with
              | Some block =>
                  mkFrontmatter (field_of (lit "name") block)
                                (field_of (lit "description") block)
              | None => empty_frontmatter
              end).
    rewrite scan_after_fence by assumption.
    destruct (block_after_opening rest) as [block|]; [|reflexivity].
    unfold scan_block. rewrite fold_scan_line. reflexivity.
  - rewrite after_fence_join, Hb by assumption. reflexivity.
Qed.

(** What the backtracking matcher and the loop do, read off the lines of
    the content: the first line must be three hyphens followed by at most
    whitespace; blank lines after it are passed over; the block runs from
    the first line that is not blank up to the next later line that begins
    with three hyphens. *)
Lemma parseSkillFrontmatter_descriptor_fields (content : jsstring) :
  parseSkillFrontmatter content = descriptor_fields (split LF content).
Proof.
  rewrite <- (join_split content) at 1.
  pose proof (split_LF_free content) as H.
  destruct (split LF content) as [|first rest] eqn:E;
    [exfalso; exact (split_not_nil content E)|].
  apply parseSkillFrontmatter_lines. exact H.
Qed.

Lemma blank_line_has_no_key (key l : jsstring) :
  blank_line l = true -> has_key key l = false.
Proof.
  intros H. unfold has_key, line_key.
  rewrite (blank_line_no_colon l H). reflexivity.
Qed.

Lemma find_snoc_miss {A : Type} (f : A -> bool) (l : list A) (x : A) :
  f x = false -> find f (l ++ [x]) = find f l.
Proof.
  intros Hx. induction l as [|y l IH]; simpl.
  - rewrite Hx. reflexivity.
  - destruct (f y); [reflexivity | exact IH].
Qed.

Lemma field_of_skip_blank (key l : jsstring) (block : list jsstring) :
  blank_line l = true -> field_of key (l :: block) = field_of key block.
Proof.
  intros H. unfold field_of. cbn [rev].
  rewrite find_snoc_miss by (apply blank_line_has_no_key; exact H).
  reflexivity.
Qed.

Lemma no_closing_no_block (rest : list jsstring) :
  until_closing rest = None -> block_after_opening rest = None.
Proof.
  induction rest as [|l rest IH]; [reflexivity|].
  cbn [until_closing block_after_opening].
  destruct (closing_line l); [discriminate|].
  destruct (until_closing rest) as [b|]; [discriminate|].
  intros _. destruct (blank_line l); [apply IH; reflexivity | reflexivity].
Qed.

Lemma block_after_opening_fields (rest block : list jsstring) :
  until_closing rest = Some block -> has_text block = true ->
  exists block',
    block_after_opening rest = Some block'
    /\ block_fields block' = block_fields block.
Proof.
  revert block. induction rest as [|l rest IH]; intros block; [discriminate|].
  cbn [until_closing block_after_opening].
  destruct (closing_line l); [intros E; inversion E; discriminate|].
  destruct (until_closing rest) as [b|]; [|discriminate].
  intros E Ht. inversion E; subst block. clear E.
  destruct (blank_line l) eqn:Hb.
  - cbn [has_text existsb] in Ht. rewrite Hb in Ht. cbn [negb orb] in Ht.
    destruct (IH b eq_refl Ht) as [block' [E' F']].
    exists block'. split; [exact E'|]. rewrite F'.
    unfold block_fields. rewrite !field_of_skip_blank by assumption.
    reflexivity.
  - exists (l :: b). split; reflexivity.
Qed.

(** C5 (amended): the parser never fails and reads only [name] and
    [description], off a leading block that a first line of three hyphens
    (followed by at most whitespace) opens and that the next line beginning
    with three hyphens closes: for a block with a line that is not blank,
    each field is the trimmed value of the last [key: value] line of the
    block with that key, or the empty string; and when the content has no
    such opening line, or no later line that begins with three hyphens,
    both fields are empty strings. *)
Theorem parseSkillFrontmatter_spec (content : jsstring) :
  (fenced_block (split LF content) = None ->
   parseSkillFrontmatter content = empty_frontmatter)
  /\ (forall block,
        fenced_block (split LF content) = Some block ->
        has_text block = true ->
        parseSkillFrontmatter content = block_fields block).
Proof.
  rewrite (parseSkillFrontmatter_descriptor_fields content).
  unfold descriptor_fields, leading_block, fenced_block.
  destruct (split LF content) as [|first rest]; [split; [reflexivity | discriminate]|].
  destruct (opening_line first); [|split; [reflexivity | discriminate]].
  split.
  - intros E. rewrite (no_closing_no_block rest E). reflexivity.
  - intros block E Ht.
    destruct (block_after_opening_fields rest block E Ht) as [block' [E' F']].
    rewrite E'. exact F'.
Qed.

Lemma parseSkillFrontmatter_spec_witness :
  parseSkillFrontmatter lint_descriptor
  = mkFrontmatter (lit "Lint") (lit "Runs the linter")
  /\ parseSkillFrontmatter (lines_of ["# Lint"; "name: lint"]%string)
     = empty_frontmatter.
Proof.
  split.
  - apply (proj2 (parseSkillFrontmatter_spec lint_descriptor)
             (map lit ["name: Lint"; "description: Runs the linter";
                       "license: MIT"]%string));
      reflexivity.
  - apply (proj1 (parseSkillFrontmatter_spec
                    (lines_of ["# Lint"; "name: lint"]%string))).
    reflexivity.
Defined.

Example parse_lint_descriptor :
  parseSkillFrontmatter lint_descriptor
  = mkFrontmatter (lit "Lint") (lit "Runs the linter").
Proof. reflexivity. Qed.

Example parse_no_block :
  parseSkillFrontmatter (lines_of ["# Lint"; "name: lint"]%string)
  = empty_frontmatter.
Proof. reflexivity. Qed.

(** A block is also read when blank lines left it empty: the first closing
    line then counts as text and the block runs to the next one. *)
Example parse_shadowed_descriptor :
  parseSkillFrontmatter shadowed_descriptor = mkFrontmatter (lit "later") [].
Proof. reflexivity. Qed.

(** C5 as stated fails: content whose closing line is not exactly three
    hyphens is not of the documented shape, and yet a name is extracted. *)
Lemma parseSkillFrontmatter_not_strictly_fenced :
  ~ (forall content,
       strictly_fenced content = false ->
       parseSkillFrontmatter content = empty_frontmatter).
Proof.
  intros H. specialize (H unclosed_descriptor eq_refl). discriminate H.
Qed.

(** ** Registry listing *)

Lemma str_or_nil_r (a : jsstring) : str_or a [] = a.
Proof. destruct a; reflexivity. Qed.

Lemma str_or_eqb (a b : jsstring) :
  str_or a b = if str_eqb a [] then b else a.
Proof. destruct a; reflexivity. Qed.

Lemma visit_entry_spec (fs : FileSystem) (registryDir : path)
    (available : list AvailableSkill) (entry : Dirent) :
  visit_entry fs registryDir available entry
  = available ++ records_of fs registryDir [entry].
Proof.
  unfold visit_entry, records_of, descriptor_of, skill_record. cbn [flat_map].
  destruct (entry_isDirectory entry); cbn [negb andb];
    [|rewrite app_nil_r; reflexivity].
  destruct (existsSync fs _); cbn [negb];
    [|rewrite app_nil_r; reflexivity].
  destruct (readFileSync fs _) as [content|e];
    [|rewrite app_nil_r; reflexivity].
  rewrite str_or_nil_r, str_or_eqb. reflexivity.
Qed.

Lemma fold_visit_entry (fs : FileSystem) (registryDir : path)
    (entries : list Dirent) (available : list AvailableSkill) :
  fold_left (visit_entry fs registryDir) entries available
  = available ++ records_of fs registryDir entries.
Proof.
  revert available. induction entries as [|entry entries IH]; intros available.
  - simpl. rewrite app_nil_r. reflexivity.
  - cbn [fold_left]. rewrite IH, visit_entry_spec, <- app_assoc.
    unfold records_of. cbn [flat_map]. rewrite app_nil_r. reflexivity.
Qed.

Lemma in_records_of (fs : FileSystem) (registryDir : path)
    (entries : list Dirent) (r : AvailableSkill) :
  In r (records_of fs registryDir entries) <->
  exists entry content,
    In entry entries
    /\ entry_isDirectory entry = true
    /\ existsSync fs (registryDir ++ [entry_name entry; lit "SKILL.md"]) = true
    /\ readFileSync fs (registryDir ++ [entry_name entry; lit "SKILL.md"])
       = Returned content
    /\ r = skill_record (entry_name entry) content.
Proof.
  unfold records_of. rewrite in_flat_map. split.
  - intros [entry [Hin Hr]]. unfold descriptor_of in Hr.
    destruct (entry_isDirectory entry) eqn:Ed; [|contradiction].
    destruct (existsSync fs _) eqn:Ee; [|contradiction].
    cbn [andb] in Hr.
    destruct (readFileSync fs _) as [content|e] eqn:Er; [|contradiction].
    destruct Hr as [<- | []]. exists entry, content. auto.
  - intros [entry [content [Hin [Ed [Ee [Er ->]]]]]].
    exists entry. split; [assumption|].
    unfold descriptor_of. rewrite Ed, Ee, Er. left. reflexivity.
Qed.

(** C6: the listing is empty when the registry directory is missing or
    cannot be read; otherwise it is, in directory order, one record per
    entry that is a directory holding a readable SKILL.md: entries that are
    not directories, directories with no descriptor and descriptors that
    cannot be read are skipped, and nothing is raised.  A record carries
    the directory name, the parsed name or else the directory name, and
    the parsed description or else the empty string. *)
Theorem listAvailableSkills_spec (fs : FileSystem) (homedir : path) :
  let registryDir := homedir ++ [lit ".dawg"; lit "skills"] in
  (existsSync fs registryDir = false -> listAvailableSkills fs homedir = [])
  /\ (forall e, readdirSync fs registryDir = Threw e ->
        listAvailableSkills fs homedir = [])
  /\ (forall entries,
        existsSync fs registryDir = true ->
        readdirSync fs registryDir = Returned entries ->
        listAvailableSkills fs homedir = records_of fs registryDir entries
        /\ forall r,
             In r (listAvailableSkills fs homedir) <->
             exists entry content,
               In entry entries
               /\ entry_isDirectory entry = true
               /\ existsSync fs
                    (registryDir ++ [entry_name entry; lit "SKILL.md"]) = true
               /\ readFileSync fs
                    (registryDir ++ [entry_name entry; lit "SKILL.md"])
                  = Returned content
               /\ r = mkAvailable
                        (entry_name entry)
                        (if str_eqb (fm_name (parseSkillFrontmatter content)) []
                         then entry_name entry
                         else fm_name (parseSkillFrontmatter content))
                        (fm_description (parseSkillFrontmatter content))).
Proof.
  cbv zeta. unfold listAvailableSkills. split; [|split].
  - intros ->. reflexivity.
  - intros e ->. destruct (existsSync fs _); reflexivity.
  - intros entries -> ->. rewrite fold_visit_entry. cbn [app].
    split; [reflexivity|]. intros r. apply in_records_of.
Qed.

Lemma listAvailableSkills_spec_witness :
  listAvailableSkills sample_fs sample_home
  = [mkAvailable (lit "lint") (lit "Lint") (lit "Runs the linter")].
Proof.
  destruct (proj2 (proj2 (listAvailableSkills_spec sample_fs sample_home))
              [mkDirent (lit "lint") true; mkDirent (lit "notes.txt") false;
               mkDirent (lit "empty") true; mkDirent (lit "locked") true]
              eq_refl eq_refl) as [E _].
  rewrite E. reflexivity.
Defined.

(** ** Config store *)

Lemma filter_keeps_all {A : Type} (f : A -> bool) (l : list A) :
  (forall x, In x l -> f x = true) -> filter f l = l.
Proof.
  induction l as [|x l IH]; intros H; [reflexivity|].
  simpl. rewrite (H x (or_introl eq_refl)). f_equal.
  apply IH. intros y Hy. apply H. right. exact Hy.
Qed.

Lemma filter_twice {A : Type} (f : A -> bool) (l : list A) :
  filter f (filter f l) = filter f l.
Proof.
  apply filter_keeps_all. intros x Hx. apply filter_In in Hx. tauto.
Qed.

(** C8: removing a step id that the config does not hold is not an error:
    the handler answers success with a config identical to the one before
    the call and the store is unchanged; and removing any id a second time
    changes nothing more. *)
Theorem removeStep_route_idempotent (m : Manager) (stepId : jsstring) :
  ((forall s, In s (cfg_steps (mgr_config m)) -> step_id s <> stepId) ->
   removeStep_route stepId m
   = (Returned (Json 200 (SuccessConfig (mgr_config m))), m))
  /\ removeStep_route stepId (snd (removeStep_route stepId m))
     = removeStep_route stepId m.
Proof.
  unfold removeStep_route. cbn [removeStep SpecManager spec_removeStep].
  split.
  - intros Habsent. rewrite filter_keeps_all.
    + destruct m as [[steps skills] next results]. reflexivity.
    + intros s Hs. apply negb_true_iff, str_eqb_neq. auto.
  - cbn [snd mgr_config cfg_steps cfg_skills mgr_next_id mgr_results].
    rewrite filter_twice. reflexivity.
Qed.

Lemma removeStep_route_idempotent_witness :
  removeStep_route (lit "unknown") sample_manager
  = (Returned (Json 200 (SuccessConfig (mgr_config sample_manager))),
     sample_manager).
Proof.
  apply (proj1 (removeStep_route_idempotent sample_manager (lit "unknown"))).
  intros s [<- | []]. discriminate.
Defined.

(** ** Route handlers over the manager of the specification *)

Lemma normalizeHookTrigger_string (v : value) :
  exists t, normalizeHookTrigger v = VStr t.
Proof.
  destruct (normalizeHookTrigger_cases v) as [[t [_ [Hv E]]] | [_ E]].
  - exists t. rewrite E. exact Hv.
  - eauto.
Qed.

(** The handler's own check: it answers 400 and never calls the manager,
    whatever manager the routes were registered with. *)
Lemma addStep_route_rejects {M Config : Type} `{HooksManager M Config}
    (m : M) (body : RequestBody) (field : jsstring -> value) :
  destructure body = Returned field ->
  negb (truthy (field (lit "name")))
  || (negb (strict_eq_str (field (lit "kind")) (lit "prompt"))
      && negb (truthy (field (lit "command"))))
  || (strict_eq_str (field (lit "kind")) (lit "prompt")
      && negb (truthy (field (lit "prompt")))) = true ->
  addStep_route body m
  = (Json 400
       (Failure (if strict_eq_str (field (lit "kind")) (lit "prompt")
                 then lit "name and prompt are required"
                 else lit "name and command are required")), m).
Proof.
  intros Hd Hc. unfold addStep_route. rewrite Hd. cbv zeta. rewrite Hc.
  reflexivity.
Qed.

(** C7: adding a step fails with a validation answer (status 400, an error
    message) and leaves the store as it was whenever name is empty, or the
    step is not a prompt and command is empty, or it is a prompt and prompt
    is empty; otherwise it succeeds: the manager appends one step after the
    old ones and the handler answers 200 with that resulting config. *)
Theorem addStep_route_spec (m : Manager) (body : RequestBody)
    (field : jsstring -> value) :
  destructure body = Returned field ->
  let name := field (lit "name") in
  let command := field (lit "command") in
  let prompt := field (lit "prompt") in
  let isPrompt := strict_eq_str (field (lit "kind")) (lit "prompt") in
  ((truthy name = false
    \/ (isPrompt = false /\ truthy command = false)
    \/ (isPrompt = true /\ truthy prompt = false)) ->
   addStep_route body m
   = (Json 400
        (Failure (if isPrompt then lit "name and prompt are required"
                  else lit "name and command are required")), m))
  /\ (truthy name = true ->
      (isPrompt = false -> truthy command = true) ->
      (isPrompt = true -> truthy prompt = true) ->
      exists step,
        let config := mkConfig (cfg_steps (mgr_config m) ++ [step])
                               (cfg_skills (mgr_config m)) in
        addStep_route body m
        = (Json 200 (SuccessConfig config),
           mkManager config (mgr_next_id m + 1) (mgr_results m))
        /\ (forall n, name = VStr n -> step_name step = n)
        /\ step_command step = Some (if isPrompt then [] else
                                       match command with
                                       | VStr c => c
                                       | _ => []
                                       end)
        /\ step_enabled step = Some true
        /\ (exists t, In t hook_triggers /\ step_trigger step = Some t)
        /\ (field (lit "trigger") = VUndefined ->
            step_trigger step = Some post_implementation)).
Proof.
  intros Hd. cbv zeta.
  assert (Htrig : exists t, In t hook_triggers
                  /\ Some (string_of (normalizeHookTrigger
                                        (field (lit "trigger")))) = Some t).
  { destruct (normalizeHookTrigger_cases (field (lit "trigger")))
      as [[t [Ht [Hv Hn']]] | [_ Hn']]; rewrite Hn'.
    - exists t. rewrite Hv. split; [exact Ht | reflexivity].
    - exists post_implementation.
      split; [apply in_hook_triggers; auto | reflexivity]. }
  split.
  - intros Hbad. apply addStep_route_rejects; [assumption|].
    destruct Hbad as [Hn | [[Hk Hc] | [Hk Hp]]].
    + rewrite Hn. reflexivity.
    + rewrite Hk, Hc. cbn [negb andb]. rewrite ?orb_true_r. reflexivity.
    + rewrite Hk, Hp. cbn [negb andb]. rewrite ?orb_true_r. reflexivity.
  - intros Hn Hc Hp.
    unfold addStep_route. rewrite Hd. cbv zeta.
    cbn [addStep SpecManager]. unfold spec_addStep.
    cbn [o_kind o_prompt o_trigger o_condition o_conditionTitle].
    rewrite Hn. cbn [negb orb].
    destruct (strict_eq_str (field (lit "kind")) (lit "prompt")) eqn:Hk.
    + rewrite (Hp eq_refl). cbn [negb andb orb truthy].
      eexists. cbv zeta. split; [reflexivity|].
      cbn [step_name step_command step_enabled step_trigger string_of].
      split; [intros n ->; reflexivity|]. split; [reflexivity|].
      split; [reflexivity|]. split; [exact Htrig|].
      intros ->. reflexivity.
    + rewrite (Hc eq_refl). cbn [negb andb orb].
      eexists. cbv zeta. split; [reflexivity|].
      cbn [step_name step_command step_enabled step_trigger].
      split; [intros n ->; reflexivity|]. split; [reflexivity|].
      split; [reflexivity|]. split; [exact Htrig|].
      intros ->. reflexivity.
Qed.

Lemma addStep_route_spec_witness :
  addStep_route nameless_request sample_manager
  = (Json 400 (Failure (lit "name and command are required")), sample_manager)
  /\ (exists step,
        addStep_route lint_request sample_manager
        = (Json 200 (SuccessConfig (mkConfig [legacy_step; step] [])),
           mkManager (mkConfig [legacy_step; step] []) 8 [])
        /\ step_name step = lit "lint"
        /\ step_command step = Some (lit "run lint"))
  /\ exists step,
       addStep_route numeric_condition_request sample_manager
       = (Json 200 (SuccessConfig (mkConfig [legacy_step; step] [])),
          mkManager (mkConfig [legacy_step; step] []) 8 []).
Proof.
  split; [|split].
  - apply (proj1 (addStep_route_spec sample_manager nameless_request _ eq_refl)).
    left. reflexivity.
  - destruct (proj2 (addStep_route_spec sample_manager lint_request _ eq_refl))
      as [step [E [Hn [Hc _]]]]; try reflexivity; try discriminate.
    exists step. split; [exact E|]. split; [apply Hn; reflexivity | exact Hc].
  - destruct (proj2 (addStep_route_spec sample_manager
                       numeric_condition_request _ eq_refl))
      as [step [E _]]; try reflexivity; try discriminate.
    exists step. exact E.
Defined.

Lemma key_eqb_refl (k : ResultKey) : key_eqb k k = true.
Proof. unfold key_eqb. destruct (key_eq_dec k k); congruence. Qed.

(** After a report, the record of its key is the reported one. *)
Lemma stored_after_report (worktreeId : jsstring) (r : SkillHookResult)
    (m : Manager) :
  stored_result (result_key worktreeId r)
                (snd (spec_reportSkillResult worktreeId r m)) = Some r.
Proof.
  unfold stored_result, spec_reportSkillResult.
  cbn [snd mgr_results find fst]. rewrite key_eqb_refl. reflexivity.
Qed.

(** A report for one key leaves the records of the other keys alone. *)
Lemma stored_other_key (worktreeId : jsstring) (r : SkillHookResult)
    (m : Manager) (k : ResultKey) :
  k <> result_key worktreeId r ->
  stored_result k (snd (spec_reportSkillResult worktreeId r m))
  = stored_result k m.
Proof.
  intros Hk. unfold stored_result, spec_reportSkillResult.
  cbn [snd mgr_results find fst].
  assert (E : key_eqb (result_key worktreeId r) k = false).
  { unfold key_eqb. destruct (key_eq_dec _ k); congruence. }
  rewrite E. f_equal.
  induction (mgr_results m) as [|[k' r'] l IH]; [reflexivity|].
  cbn [filter find fst].
  destruct (key_eqb k' (result_key worktreeId r)) eqn:E1; cbn [negb find fst].
  - unfold key_eqb in E1. destruct (key_eq_dec k' _) as [->|]; [|discriminate].
    rewrite E. exact IH.
  - destruct (key_eqb k' k); [reflexivity | exact IH].
Qed.

(** C4: a self-report with a skillName and no success field (absent or
    null) stores, under its key, a record with status running and the
    timestamp; with a boolean success it stores status passed or failed
    with the boolean, the timestamp and the optional summary, content and
    filePath; a success that is present and not a boolean, or a missing
    skillName, is answered with a validation error (status 400) and the
    store is left as it was. *)
Theorem report_route_spec (m : Manager) (worktreeId now : jsstring)
    (body : RequestBody) (field : jsstring -> value) :
  destructure body = Returned field ->
  let skillName := field (lit "skillName") in
  let trigger := field (lit "trigger") in
  let success := field (lit "success") in
  let key : ResultKey := (worktreeId, skillName, trigger) in
  (truthy skillName = true ->
   (success = VUndefined \/ success = VNull) ->
   exists m',
     report_route worktreeId body now m = (Json 200 Success, m')
     /\ stored_result key m'
        = Some (mkResult skillName trigger running None
                         VUndefined VUndefined VUndefined now))
  /\ (truthy skillName = true ->
      forall b, success = VBool b ->
      exists m',
        report_route worktreeId body now m = (Json 200 Success, m')
        /\ stored_result key m'
           = Some (mkResult skillName trigger
                     (if b then passed else failed) (Some b)
                     (if truthy (field (lit "summary"))
                      then field (lit "summary") else VUndefined)
                     (if truthy (field (lit "content"))
                      then field (lit "content") else VUndefined)
                     (if truthy (field (lit "filePath"))
                      then field (lit "filePath") else VUndefined)
                     now))
  /\ (truthy skillName = true ->
      success <> VUndefined -> success <> VNull ->
      (forall b, success <> VBool b) ->
      report_route worktreeId body now m
      = (Json 400 (Failure (lit "success must be a boolean")), m))
  /\ (truthy skillName = false ->
      report_route worktreeId body now m
      = (Json 400 (Failure (lit "skillName is required")), m)).
Proof.
  intros Hd. cbv zeta. unfold report_route. rewrite Hd. cbv zeta.
  cbn [reportSkillResult SpecManager].
  split; [|split; [|split]].
  - intros Hs Hu. rewrite Hs. cbn [negb].
    eexists. split.
    + destruct Hu as [-> | ->]; reflexivity.
    + apply (stored_after_report worktreeId
               (mkResult _ _ running None VUndefined VUndefined VUndefined now)).
  - intros Hs b Hb. rewrite Hs, Hb. cbn [negb].
    eexists. split; [reflexivity|].
    apply (stored_after_report worktreeId
             (mkResult _ _ (if b then passed else failed) (Some b) _ _ _ now)).
  - intros Hs Hu Hn Hb. rewrite Hs. cbn [negb].
    destruct (field (lit "success")) as [| |b|x|s|j];
      try reflexivity; try contradiction.
    exfalso. exact (Hb b eq_refl).
  - intros Hs. rewrite Hs. reflexivity.
Qed.

Lemma report_route_spec_witness :
  (exists m',
     report_route (lit "wt-1") start_report sample_time sample_manager
     = (Json 200 Success, m')
     /\ stored_result (lit "wt-1", VStr (lit "review"), VStr (lit "custom")) m'
        = Some (mkResult (VStr (lit "review")) (VStr (lit "custom")) running
                  None VUndefined VUndefined VUndefined sample_time))
  /\ (exists m',
        report_route (lit "wt-1") result_report sample_time sample_manager
        = (Json 200 Success, m')
        /\ stored_result (lit "wt-1", VStr (lit "review"), VStr (lit "custom")) m'
           = Some (mkResult (VStr (lit "review")) (VStr (lit "custom")) failed
                     (Some false) (VStr (lit "2 issues")) VUndefined VUndefined
                     sample_time))
  /\ report_route (lit "wt-1") untyped_report sample_time sample_manager
     = (Json 400 (Failure (lit "success must be a boolean")), sample_manager)
  /\ report_route (lit "wt-1") JsonScalarOrArray sample_time sample_manager
     = (Json 400 (Failure (lit "skillName is required")), sample_manager).
Proof.
  split; [|split; [|split]].
  - apply (proj1 (report_route_spec sample_manager (lit "wt-1") sample_time
                    start_report _ eq_refl)); [reflexivity | left; reflexivity].
  - apply (proj1 (proj2 (report_route_spec sample_manager (lit "wt-1")
                           sample_time result_report _ eq_refl))
             eq_refl false eq_refl).
  - apply (proj1 (proj2 (proj2 (report_route_spec sample_manager (lit "wt-1")
                                   sample_time untyped_report _ eq_refl))));
      try reflexivity; discriminate.
  - apply (proj2 (proj2 (proj2 (report_route_spec sample_manager (lit "wt-1")
                                   sample_time JsonScalarOrArray _ eq_refl)))).
    reflexivity.
Defined.

(* ================================================================== *)
(** * Further properties *)
(* ================================================================== *)

(** ** Triggers across the handlers *)

Lemma normalized_eq (v : value) : VStr (normalized v) = normalizeHookTrigger v.
Proof.
  unfold normalized.
  destruct (normalizeHookTrigger_string v) as [t E]. rewrite E. reflexivity.
Qed.

Lemma normalized_in_triggers (v : value) : In (normalized v) hook_triggers.
Proof.
  pose proof (normalized_eq v) as E.
  destruct (normalizeHookTrigger_cases v) as [[t [Ht [Hv Hn]]] | [_ Hn]];
    rewrite Hn in E.
  - subst v. injection E as E'. rewrite E'. exact Ht.
  - injection E as E'. rewrite E'. apply in_hook_triggers. auto.
Qed.

(** X1: whatever the input, [normalizeHookTrigger] returns one of the four
    trigger literals, and normalizing its result again changes nothing. *)
Theorem normalizeHookTrigger_range_idempotent (v : value) :
  (exists t, In t hook_triggers /\ normalizeHookTrigger v = VStr t)
  /\ normalizeHookTrigger (normalizeHookTrigger v) = normalizeHookTrigger v.
Proof.
  assert (Hr : exists t, In t hook_triggers /\ normalizeHookTrigger v = VStr t).
  { exists (normalized v). split;
      [apply normalized_in_triggers | symmetry; apply normalized_eq]. }
  split; [exact Hr|].
  destruct Hr as [t [Ht E]]. rewrite E.
  destruct (normalizeHookTrigger_cases (VStr t)) as [[_ [_ [_ Hn]]] | [Hno _]];
    [exact Hn | exfalso; exact (Hno t Ht eq_refl)].
Qed.

Lemma formatHookTriggerLabel_cases (t : jsstring) :
  (t = pre_implementation
   /\ formatHookTriggerLabel t = Some (lit "Pre-Implementation"))
  \/ (t = post_implementation
      /\ formatHookTriggerLabel t = Some (lit "Post-Implementation"))
  \/ (t = custom /\ formatHookTriggerLabel t = Some (lit "Custom"))
  \/ (t = on_demand /\ formatHookTriggerLabel t = Some (lit "On-Demand"))
  \/ (~ In t hook_triggers /\ formatHookTriggerLabel t = None).
Proof.
  unfold formatHookTriggerLabel.
  destruct (str_eqb t pre_implementation) eqn:E1;
    [apply str_eqb_eq in E1; auto|].
  destruct (str_eqb t post_implementation) eqn:E2;
    [apply str_eqb_eq in E2; auto|].
  destruct (str_eqb t custom) eqn:E3; [apply str_eqb_eq in E3; auto 6|].
  destruct (str_eqb t on_demand) eqn:E4; [apply str_eqb_eq in E4; auto 6|].
  do 4 right. split; [|reflexivity].
  apply str_eqb_neq in E1, E2, E3, E4.
  rewrite in_hook_triggers. tauto.
Qed.

(** X2: [formatHookTriggerLabel] has a label exactly for the four trigger
    literals, so the title of an event built from a normalized trigger
    always carries one; the label is the trigger in another letter case,
    and is therefore not itself accepted as a trigger: normalized, it
    becomes "post-implementation". *)
Theorem formatHookTriggerLabel_spec (t : jsstring) :
  (formatHookTriggerLabel t <> None <-> In t hook_triggers)
  /\ (forall label,
        formatHookTriggerLabel t = Some label ->
        same_ignoring_case label t
        /\ label <> t
        /\ normalizeHookTrigger (VStr label) = VStr post_implementation)
  /\ (forall v, formatHookTriggerLabel (normalized v) <> None).
Proof.
  assert (Hdef : forall u, formatHookTriggerLabel u <> None <-> In u hook_triggers).
  { intros u. rewrite in_hook_triggers.
    destruct (formatHookTriggerLabel_cases u)
      as [[-> E] | [[-> E] | [[-> E] | [[-> E] | [Hn E]]]]];
      rewrite E; try (split; [auto | discriminate]).
    rewrite in_hook_triggers in Hn. split; [congruence | tauto]. }
  split; [apply Hdef|]. split.
  - intros label E.
    assert (Hl : same_ignoring_case label t /\ label <> t).
    { destruct (formatHookTriggerLabel_cases t)
        as [[-> E'] | [[-> E'] | [[-> E'] | [[-> E'] | [_ E']]]]];
        rewrite E' in E; inversion E; subst label;
        (split; [reflexivity | discriminate]). }
    destruct Hl as [Hc Hne]. split; [exact Hc|]. split; [exact Hne|].
    assert (Ht : In t hook_triggers) by (apply Hdef; congruence).
    destruct (normalizeHookTrigger_cases (VStr label))
      as [[t' [Ht' [Hv _]]] | [_ Hn]]; [|exact Hn].
    exfalso. apply Hne. inversion Hv; subst t'.
    unfold same_ignoring_case in Hc.
    rewrite (hook_triggers_lowercase label Ht'),
            (hook_triggers_lowercase t Ht) in Hc.
    exact Hc.
  - intros v. apply Hdef. apply normalized_in_triggers.
Qed.

Lemma formatHookTriggerLabel_spec_witness :
  same_ignoring_case (lit "On-Demand") on_demand
  /\ lit "On-Demand" <> on_demand
  /\ normalizeHookTrigger (VStr (lit "On-Demand")) = VStr post_implementation.
Proof.
  apply (proj1 (proj2 (formatHookTriggerLabel_spec on_demand))).
  reflexivity.
Defined.

(** The requested triggers a step matches, by the falsiness of its own. *)
Lemma matchesTrigger_truthy (step : HookStep) (s t : jsstring) :
  step_trigger step = Some s -> s <> [] ->
  matchesTrigger step t = str_eqb s t.
Proof.
  intros E Hs. unfold matchesTrigger. rewrite E.
  destruct (str_eqb t post_implementation) eqn:Et; [|reflexivity].
  apply str_eqb_eq in Et. subst t.
  destruct s; [contradiction|]. cbn [text_is text_truthy negb].
  apply orb_false_r.
Qed.

Lemma matchesTrigger_falsy (step : HookStep) (t : jsstring) :
  text_truthy (step_trigger step) = false -> In t hook_triggers ->
  matchesTrigger step t = str_eqb t post_implementation.
Proof.
  intros E Ht. unfold matchesTrigger. rewrite E.
  destruct (str_eqb t post_implementation) eqn:Et.
  - cbn [negb]. apply orb_true_r.
  - destruct (step_trigger step) as [[|c s]|]; try discriminate; [|reflexivity].
    cbn [text_is]. apply str_eqb_neq. intros <-.
    apply in_hook_triggers in Ht. intuition discriminate.
Qed.

Lemma matched_trigger_unique (step : HookStep) (t1 t2 : jsstring) :
  In t1 hook_triggers -> In t2 hook_triggers ->
  matchesTrigger step t1 = true -> matchesTrigger step t2 = true ->
  t1 = t2.
Proof.
  intros H1 H2.
  destruct (text_truthy (step_trigger step)) eqn:Ht.
  - destruct (step_trigger step) as [[|c s]|] eqn:Es; try discriminate.
    rewrite !(matchesTrigger_truthy step (c :: s) _ Es) by discriminate.
    rewrite !str_eqb_eq. congruence.
  - rewrite (matchesTrigger_falsy step t1 Ht H1),
            (matchesTrigger_falsy step t2 Ht H2), !str_eqb_eq.
    congruence.
Qed.

(** X3: a step matches at most one of the four requested triggers; it
    matches one exactly when its own trigger is unset, empty or one of the
    four literals, so a step saved with any other trigger string is picked
    by no run-all request. *)
Theorem matchesTrigger_exclusive (step : HookStep) :
  (forall t1 t2,
     In t1 hook_triggers -> In t2 hook_triggers ->
     matchesTrigger step t1 = true -> matchesTrigger step t2 = true ->
     t1 = t2)
  /\ ((exists t, In t hook_triggers /\ matchesTrigger step t = true) <->
      (text_truthy (step_trigger step) = false
       \/ exists t, In t hook_triggers /\ step_trigger step = Some t)).
Proof.
  destruct (text_truthy (step_trigger step)) eqn:Ht.
  - destruct (step_trigger step) as [[|c s]|] eqn:Es; try discriminate.
    assert (Hm : forall t, matchesTrigger step t = str_eqb (c :: s) t)
      by (intros t; apply (matchesTrigger_truthy step (c :: s) t Es);
          discriminate).
    split.
    + intros t1 t2 _ _. rewrite !Hm, !str_eqb_eq. congruence.
    + split.
      * intros [t [Hin Ht']]. right. exists t. rewrite Hm, str_eqb_eq in Ht'.
        subst t. split; [exact Hin | reflexivity].
      * intros [Hf | [t [Hin Et]]]; [discriminate|].
        exists t. split; [exact Hin|]. rewrite Hm. apply str_eqb_eq.
        congruence.
  - split.
    + intros t1 t2 H1 H2.
      rewrite (matchesTrigger_falsy step t1 Ht H1),
              (matchesTrigger_falsy step t2 Ht H2), !str_eqb_eq.
      congruence.
    + split; [auto|]. intros _. exists post_implementation.
      split; [apply in_hook_triggers; auto|].
      rewrite matchesTrigger_falsy; [apply str_eqb_refl | exact Ht |].
      apply in_hook_triggers; auto.
Qed.

Lemma matchesTrigger_exclusive_witness :
  (exists t, In t hook_triggers /\ matchesTrigger legacy_step t = true)
  /\ ~ (exists t, In t hook_triggers
                 /\ matchesTrigger
                      (with_trigger legacy_step (Some (lit "Custom"))) t = true).
Proof.
  split.
  - apply (proj2 (matchesTrigger_exclusive legacy_step)). left. reflexivity.
  - intros H.
    apply (proj2 (matchesTrigger_exclusive
                    (with_trigger legacy_step (Some (lit "Custom"))))) in H.
    destruct H as [H | [t [Hin Et]]]; [discriminate|].
    injection Et as <-. apply in_hook_triggers in Hin. intuition discriminate.
Defined.

Lemma matched_trigger_normalized (step : HookStep) (t : jsstring) :
  In t hook_triggers -> matchesTrigger step t = true ->
  normalized (text_value (step_trigger step)) = t.
Proof.
  intros Hin Hm.
  pose proof (normalized_eq (text_value (step_trigger step))) as E.
  destruct (text_truthy (step_trigger step)) eqn:Ht.
  - destruct (step_trigger step) as [[|c s]|] eqn:Es; try discriminate.
    rewrite (matchesTrigger_truthy step (c :: s) t Es) in Hm by discriminate.
    apply str_eqb_eq in Hm. subst t. cbn [text_value] in *.
    destruct (normalizeHookTrigger_cases (VStr (c :: s)))
      as [[_ [_ [_ Hn]]] | [Hno _]].
    + rewrite Hn in E. injection E as E'. exact E'.
    + exfalso. exact (Hno _ Hin eq_refl).
  - rewrite (matchesTrigger_falsy step t Ht Hin) in Hm.
    apply str_eqb_eq in Hm. subst t.
    destruct (step_trigger step) as [[|c s]|]; try discriminate;
      reflexivity.
Qed.

(** X4: the two run handlers agree on the trigger of a step: when a
    run-all request for a trigger selects the step by [matchesTrigger], the
    run-single handler, which normalizes the step's own trigger, files its
    events under that same trigger. *)
Theorem matchesTrigger_normalized (step : HookStep) (t : jsstring) :
  In t hook_triggers -> matchesTrigger step t = true ->
  normalized (text_value (step_trigger step)) = t.
Proof. apply matched_trigger_normalized. Qed.

Lemma matchesTrigger_normalized_witness :
  normalized (text_value (step_trigger empty_trigger_step))
  = post_implementation.
Proof.
  apply (matchesTrigger_normalized empty_trigger_step post_implementation);
    [simpl; auto | reflexivity].
Defined.

Lemma isRunnableCommandStep_true (step : HookStep) :
  isRunnableCommandStep step = true ->
  step_kind step <> Some (lit "prompt")
  /\ exists c, step_command step = Some c /\ trim c <> [].
Proof.
  unfold isRunnableCommandStep. rewrite <- text_truthy_trim.
  destruct (text_truthy (opt_trim (step_command step)));
    rewrite ?andb_false_r, ?andb_true_r, ?orb_false_r; cbn [negb andb];
    [|discriminate].
  rewrite negb_true_iff, <- not_true_iff_false, text_is_eq. tauto.
Qed.

(** X5: the steps a run-all request announces are steps of the config
    that are not disabled, are not of kind "prompt" and have
    a command that is not blank; and the selections of two different
    triggers share no step. *)
Theorem runnableSteps_spec (config : Config) (t : jsstring) :
  (forall step,
     In step (runnableSteps config t) ->
     In step (cfg_steps config)
     /\ step_enabled step <> Some false
     /\ matchesTrigger step t = true
     /\ step_kind step <> Some (lit "prompt")
     /\ exists c, step_command step = Some c /\ trim c <> [])
  /\ (forall t' step,
        In t hook_triggers -> In t' hook_triggers -> t <> t' ->
        In step (runnableSteps config t) ->
        ~ In step (runnableSteps config t')).
Proof.
  unfold runnableSteps. split.
  - intros step Hs. apply filter_In in Hs as [Hin Hsel].
    unfold selected in Hsel. rewrite !andb_true_iff in Hsel.
    destruct Hsel as [[He Hm] Hr].
    destruct (isRunnableCommandStep_true step Hr) as [Hk Hc].
    repeat split; auto.
    intros E. unfold enabled_not_false in He. rewrite E in He. discriminate.
  - intros t' step Ht Ht' Hne Hs Hs'.
    apply filter_In in Hs as [_ Hsel]. apply filter_In in Hs' as [_ Hsel'].
    unfold selected in *. rewrite !andb_true_iff in *.
    apply Hne.
    apply (matched_trigger_unique step t t'); tauto.
Qed.

Lemma runnableSteps_spec_witness :
  ~ In running_step_a (runnableSteps (getConfig sample_env) pre_implementation).
Proof.
  apply (proj2 (runnableSteps_spec (getConfig sample_env) post_implementation)
           pre_implementation running_step_a).
  - simpl; auto.
  - simpl; auto.
  - discriminate.
  - left. reflexivity.
Defined.

(** ** What the parser returns *)

Lemma trimStart_app_stop (r x : jsstring) (c : code_unit) :
  is_whitespace c = false ->
  trimStart (r ++ c :: x) = trimStart r ++ c :: x.
Proof.
  intros Hc. induction r as [|a r IH]; simpl.
  - rewrite Hc. reflexivity.
  - destruct (is_whitespace a); [exact IH | reflexivity].
Qed.

Lemma trimStart_idempotent (s : jsstring) :
  trimStart (trimStart s) = trimStart s.
Proof.
  induction s as [|c s IH]; [reflexivity|].
  simpl. destruct (is_whitespace c) eqn:E; [exact IH|].
  simpl. rewrite E. reflexivity.
Qed.

Lemma trimStart_head (s t : jsstring) (c : code_unit) :
  trimStart s = c :: t -> is_whitespace c = false.
Proof.
  induction s as [|a s IH]; [discriminate|].
  simpl. destruct (is_whitespace a) eqn:E; [exact IH|].
  intros H. injection H as <- _. exact E.
Qed.

Lemma trimEnd_keeps_start (s : jsstring) :
  trimStart s = s -> trimStart (trimEnd s) = trimEnd s.
Proof.
  intros Hs. destruct s as [|c t]; [reflexivity|].
  pose proof (trimStart_head _ _ _ Hs) as Hc.
  unfold trimEnd. cbn [rev]. rewrite (trimStart_app_stop _ [] c Hc).
  rewrite rev_app_distr. cbn [rev app]. simpl. rewrite Hc. reflexivity.
Qed.

Lemma trimEnd_idempotent (s : jsstring) : trimEnd (trimEnd s) = trimEnd s.
Proof.
  unfold trimEnd. rewrite rev_involutive, trimStart_idempotent. reflexivity.
Qed.

(** [trim] removes all there is to remove. *)
Lemma trim_idempotent (s : jsstring) : trim (trim s) = trim s.
Proof.
  unfold trim.
  rewrite (trimEnd_keeps_start (trimStart s) (trimStart_idempotent s)).
  apply trimEnd_idempotent.
Qed.

Lemma no_LF_trimStart (s : jsstring) :
  no_LF s = true -> no_LF (trimStart s) = true.
Proof.
  induction s as [|c s IH]; [reflexivity|].
  intros H. simpl. destruct (is_whitespace c); [|exact H].
  simpl in H. apply andb_true_iff in H. apply IH. tauto.
Qed.

Lemma forallb_reversed {A : Type} (f : A -> bool) (l : list A) :
  forallb f (rev l) = forallb f l.
Proof.
  induction l as [|x l IH]; [reflexivity|].
  cbn [rev forallb]. rewrite forallb_app, IH. cbn [forallb].
  rewrite andb_true_r. apply andb_comm.
Qed.

Lemma no_LF_rev (s : jsstring) : no_LF (rev s) = no_LF s.
Proof. apply forallb_reversed. Qed.

Lemma no_LF_trim (s : jsstring) : no_LF s = true -> no_LF (trim s) = true.
Proof.
  intros H. unfold trim, trimEnd.
  rewrite no_LF_rev. apply no_LF_trimStart. rewrite no_LF_rev.
  apply no_LF_trimStart. exact H.
Qed.

Lemma no_LF_firstn (n : nat) (s : jsstring) :
  no_LF s = true -> no_LF (firstn n s) = true.
Proof.
  revert n. induction s as [|c s IH]; intros [|n] H; try reflexivity.
  simpl in *. apply andb_true_iff in H as [Hc Hs].
  rewrite Hc. apply IH. exact Hs.
Qed.

Lemma no_LF_skipn (n : nat) (s : jsstring) :
  no_LF s = true -> no_LF (skipn n s) = true.
Proof.
  revert n. induction s as [|c s IH]; intros [|n] H; try reflexivity;
    [exact H|].
  simpl in *. apply andb_true_iff in H as [_ Hs]. apply IH. exact Hs.
Qed.

Lemma no_LF_slice (s : jsstring) (i j : Z) :
  no_LF s = true -> no_LF (slice s i j) = true.
Proof.
  intros H. unfold slice. apply no_LF_firstn, no_LF_skipn. exact H.
Qed.

Lemma scan_line_clean (acc : Frontmatter) (line : jsstring) :
  no_LF line = true ->
  clean_field (fm_name acc) -> clean_field (fm_description acc) ->
  clean_field (fm_name (scan_line acc line))
  /\ clean_field (fm_description (scan_line acc line)).
Proof.
  intros Hl Hn Hd.
  assert (Hv : clean_field
                 (trim (slice_from line (indexOf COLON line + 1)))).
  { split; [apply trim_idempotent|].
    apply no_LF_trim. unfold slice_from. apply no_LF_slice. exact Hl. }
  unfold scan_line. destruct (indexOf COLON line <=? 0)%Z; [tauto|].
  destruct (str_eqb _ (lit "name")), (str_eqb _ (lit "description"));
    cbn [fm_name fm_description]; tauto.
Qed.

(** X6: whatever the content, the two fields the parser returns are
    trimmed (trimming them again changes nothing) and hold no line feed. *)
Theorem parseSkillFrontmatter_fields_clean (content : jsstring) :
  let fm := parseSkillFrontmatter content in
  (trim (fm_name fm) = fm_name fm /\ no_LF (fm_name fm) = true)
  /\ (trim (fm_description fm) = fm_description fm
      /\ no_LF (fm_description fm) = true).
Proof.
  cbv zeta. unfold parseSkillFrontmatter.
  destruct (frontmatter_match content) as [body|];
    [|repeat split; reflexivity].
  pose proof (split_LF_free body) as Hfree.
  assert (Hinv : forall lines acc,
            LF_free lines ->
            clean_field (fm_name acc) -> clean_field (fm_description acc) ->
            clean_field (fm_name (fold_left scan_line lines acc))
            /\ clean_field (fm_description (fold_left scan_line lines acc))).
  { induction lines as [|l lines IH]; intros acc Hl Hn Hd; [tauto|].
    inversion Hl; subst. cbn [fold_left].
    destruct (scan_line_clean acc l) as [Hn' Hd']; auto. }
  apply Hinv; [exact Hfree | split; reflexivity | split; reflexivity].
Qed.

Lemma slice_prefix (s : jsstring) (i : nat) :
  (i <= List.length s)%nat -> slice s 0 (Z.of_nat i) = firstn i s.
Proof.
  intros H. unfold slice, slice_index.
  replace (0 <? 0)%Z with false by reflexivity.
  destruct (Z.of_nat i <? 0)%Z eqn:E; [apply Z.ltb_lt in E; lia|].
  rewrite Z.min_l by lia. rewrite Z.min_l by lia.
  rewrite Z.sub_0_r, Z.max_l by lia.
  rewrite Nat2Z.id. reflexivity.
Qed.

Lemma slice_from_suffix (s : jsstring) (i : nat) :
  (i <= List.length s)%nat -> slice_from s (Z.of_nat i) = skipn i s.
Proof.
  intros H. unfold slice_from, slice, slice_index.
  destruct (Z.of_nat i <? 0)%Z eqn:E; [apply Z.ltb_lt in E; lia|].
  destruct (Z.of_nat (List.length s) <? 0)%Z eqn:E';
    [apply Z.ltb_lt in E'; lia|].
  rewrite Z.min_l by lia. rewrite Z.min_l by lia.
  rewrite Z.max_l by lia. rewrite Nat2Z.id.
  replace (Z.to_nat (Z.of_nat (List.length s) - Z.of_nat i))
    with (List.length (skipn i s)) by (rewrite length_skipn; lia).
  apply firstn_all.
Qed.

Lemma firstn_prefix {A : Type} (l1 l2 : list A) :
  firstn (List.length l1) (l1 ++ l2) = l1.
Proof. induction l1 as [|x l1 IH]; simpl; [destruct l2 |]; congruence. Qed.

Lemma skipn_past {A : Type} (l1 l2 : list A) (x : A) :
  skipn (S (List.length l1)) (l1 ++ x :: l2) = l2.
Proof. induction l1 as [|y l1 IH]; [reflexivity | exact IH]. Qed.

Lemma indexOf_lower (c : code_unit) (s : jsstring) :
  (-1 <= indexOf c s)%Z.
Proof.
  induction s as [|x s IH]; cbn [indexOf]; [lia|].
  destruct (x =? c); [lia|].
  destruct (indexOf c s <? 0)%Z; lia.
Qed.

Lemma indexOf_after_prefix (c : code_unit) (p s : jsstring) :
  indexOf c p = (-1)%Z ->
  indexOf c (p ++ c :: s) = Z.of_nat (List.length p).
Proof.
  induction p as [|x p IH]; cbn [app indexOf List.length].
  - rewrite N.eqb_refl. reflexivity.
  - destruct (x =? c); [discriminate|].
    pose proof (indexOf_lower c p) as Hl.
    destruct (indexOf c p <? 0)%Z eqn:E.
    + intros _. apply Z.ltb_lt in E. rewrite IH by lia.
      destruct (Z.of_nat (List.length p) <? 0)%Z eqn:E2;
        [apply Z.ltb_lt in E2; lia | lia].
    + apply Z.ltb_ge in E. lia.
Qed.

(** A [key: value] line whose key has no colon and no padding gives back
    its key, and its value trimmed. *)
Lemma key_value_line (key value : jsstring) :
  key <> [] -> indexOf COLON key = (-1)%Z -> trim key = key ->
  line_key (key ++ COLON :: value) = Some key
  /\ line_value (key ++ COLON :: value) = trim value.
Proof.
  intros Hne Hnc Htrim.
  pose proof (indexOf_after_prefix COLON key value Hnc) as Hi.
  unfold line_key, line_value. rewrite Hi.
  assert (Hlen : (List.length key <= List.length (key ++ COLON :: value))%nat)
    by (rewrite length_app; lia).
  destruct (Z.of_nat (List.length key) <=? 0)%Z eqn:E.
  - apply Z.leb_le in E. destruct key; [contradiction | cbn in E; lia].
  - split.
    + rewrite slice_prefix by exact Hlen.
      rewrite firstn_prefix, Htrim. reflexivity.
    + replace (Z.of_nat (List.length key) + 1)%Z
        with (Z.of_nat (S (List.length key))) by lia.
      rewrite slice_from_suffix by (rewrite length_app; cbn; lia).
      rewrite skipn_past. reflexivity.
Qed.

Lemma trim_leading_space (s : jsstring) : trim (32 :: s) = trim s.
Proof. reflexivity. Qed.

Lemma no_LF_cons_lit (p : string) (s : jsstring) :
  no_LF (lit p) = true -> no_LF s = true -> no_LF (lit p ++ s) = true.
Proof.
  intros Hp Hs. unfold no_LF. rewrite forallb_app.
  apply andb_true_iff. split; [exact Hp | exact Hs].
Qed.

(** X7: writing a descriptor and parsing it gives the name and the
    description back, as long as each is on one line and has no
    surrounding whitespace; colons inside them are kept. *)
Theorem parseSkillFrontmatter_render (name description : jsstring) :
  no_LF name = true -> no_LF description = true ->
  trim name = name -> trim description = description ->
  parseSkillFrontmatter (render_descriptor name description)
  = mkFrontmatter name description.
Proof.
  intros Ln Ld Tn Td. unfold render_descriptor.
  rewrite parseSkillFrontmatter_lines.
  2:{ repeat constructor; try reflexivity;
        apply no_LF_cons_lit; auto. }
  destruct (key_value_line (lit "name") (32 :: name))
    as [Kn Vn]; try reflexivity; try discriminate.
  destruct (key_value_line (lit "description") (32 :: description))
    as [Kd Vd]; try reflexivity; try discriminate.
  rewrite trim_leading_space in Vn, Vd. rewrite Tn in Vn. rewrite Td in Vd.
  change (lit "name" ++ COLON :: 32 :: name) with (lit "name: " ++ name) in *.
  change (lit "description" ++ COLON :: 32 :: description)
    with (lit "description: " ++ description) in *.
  unfold descriptor_fields, leading_block.
  replace (opening_line FENCE) with true by reflexivity.
  cbn [block_after_opening].
  replace (blank_line (lit "name: " ++ name)) with false by reflexivity.
  cbn [until_closing].
  replace (closing_line (lit "description: " ++ description))
    with false by reflexivity.
  replace (closing_line FENCE) with true by reflexivity.
  cbn [option_map]. unfold field_of. cbn [rev app find].
  unfold has_key. rewrite Kn, Kd.
  replace (str_eqb (lit "description") (lit "name")) with false by reflexivity.
  replace (str_eqb (lit "name") (lit "name")) with true by reflexivity.
  replace (str_eqb (lit "description") (lit "description"))
    with true by reflexivity.
  rewrite Vn, Vd. reflexivity.
Qed.

Lemma parseSkillFrontmatter_render_witness :
  parseSkillFrontmatter
    (render_descriptor (lit "Lint: strict") (lit "Runs eslint --max-warnings 0"))
  = mkFrontmatter (lit "Lint: strict") (lit "Runs eslint --max-warnings 0").
Proof.
  apply (parseSkillFrontmatter_render (lit "Lint: strict")
           (lit "Runs eslint --max-warnings 0")); reflexivity.
Defined.

Lemma split_app_LF (a b : jsstring) :
  split LF (a ++ LF :: b) = split LF a ++ split LF b.
Proof.
  induction a as [|c a IH]; [reflexivity|].
  cbn [app split]. destruct (c =? LF); [rewrite IH; reflexivity|].
  rewrite IH. destruct (split LF a) as [|piece rest] eqn:E;
    [exfalso; exact (split_not_nil a E) | reflexivity].
Qed.

Lemma until_closing_app (ls tail block : list jsstring) :
  until_closing ls = Some block -> until_closing (ls ++ tail) = Some block.
Proof.
  revert block. induction ls as [|l ls IH]; intros block; [discriminate|].
  cbn [app until_closing]. destruct (closing_line l); [auto|].
  destruct (until_closing ls) as [b|]; [|discriminate].
  intros E. rewrite (IH b eq_refl). exact E.
Qed.

Lemma fenced_block_fields (lines block : list jsstring) :
  fenced_block lines = Some block -> has_text block = true ->
  descriptor_fields lines = block_fields block.
Proof.
  unfold fenced_block, descriptor_fields, leading_block.
  destruct lines as [|first rest]; [discriminate|].
  destruct (opening_line first); [|discriminate].
  intros E Ht.
  destruct (block_after_opening_fields rest block E Ht) as [block' [E' F']].
  rewrite E'. exact F'.
Qed.

(** X8: once a block with a line of text is closed, what follows the
    closing line plays no part: appending further lines to the content
    leaves both fields as they are. *)
Theorem parseSkillFrontmatter_ignores_body (content more : jsstring)
    (block : list jsstring) :
  fenced_block (split LF content) = Some block -> has_text block = true ->
  parseSkillFrontmatter (content ++ LF :: more)
  = parseSkillFrontmatter content.
Proof.
  intros E Ht.
  rewrite !parseSkillFrontmatter_descriptor_fields, split_app_LF.
  rewrite (fenced_block_fields _ block E Ht).
  apply fenced_block_fields; [|exact Ht].
  unfold fenced_block in *.
  destruct (split LF content) as [|first rest]; [discriminate|].
  cbn [app]. destruct (opening_line first); [|discriminate].
  apply until_closing_app. exact E.
Qed.

Lemma parseSkillFrontmatter_ignores_body_witness :
  parseSkillFrontmatter
    (lines_of ["---"; "name: Lint"; "---"]%string
     ++ LF :: lines_of ["name: Other"; "---"]%string)
  = parseSkillFrontmatter (lines_of ["---"; "name: Lint"; "---"]%string).
Proof.
  apply (parseSkillFrontmatter_ignores_body _ _ [lit "name: Lint"]);
    reflexivity.
Defined.

(** ** The listing as a whole *)

Lemma records_of_names (fs : FileSystem) (registryDir : path)
    (entries : list Dirent) :
  map av_name (records_of fs registryDir entries)
  = map entry_name (filter (has_descriptor fs registryDir) entries).
Proof.
  unfold records_of, has_descriptor.
  induction entries as [|e entries IH]; [reflexivity|].
  cbn [flat_map filter].
  destruct (descriptor_of fs registryDir e); cbn [app map]; rewrite IH;
    reflexivity.
Qed.

Lemma distinct_names_kept (keep : Dirent -> bool) (entries : list Dirent) :
  NoDup (map entry_name entries) ->
  NoDup (map entry_name (filter keep entries)).
Proof.
  induction entries as [|e entries IH]; cbn [map filter]; [auto|].
  intros Hd. inversion Hd as [|? ? Hnew Hrest]; subst.
  destruct (keep e); [|auto]. cbn [map]. constructor; [|auto].
  intros Hin. apply Hnew. apply in_map_iff in Hin as [e' [Ee He]].
  apply filter_In in He as [He _]. rewrite <- Ee. apply in_map. exact He.
Qed.

Lemma records_of_displayName (fs : FileSystem) (registryDir : path)
    (entries : list Dirent) (r : AvailableSkill) :
  In r (records_of fs registryDir entries) ->
  av_displayName r = [] -> av_name r = [].
Proof.
  intros Hr. apply in_records_of in Hr as [e [content [_ [_ [_ [_ ->]]]]]].
  unfold skill_record. cbn [av_displayName av_name].
  destruct (str_eqb _ []) eqn:E; [auto|].
  intros H. rewrite H in E. discriminate.
Qed.

(** X9: the listing names the registry's directories with a readable
    descriptor, in directory order and once per entry: it is never longer
    than the directory, entries with distinct names give records with
    distinct names, and a record has an empty display name only if the
    directory name itself is empty. *)
Theorem listAvailableSkills_names (fs : FileSystem) (homedir : path)
    (entries : list Dirent) :
  let registryDir := homedir ++ [lit ".dawg"; lit "skills"] in
  existsSync fs registryDir = true ->
  readdirSync fs registryDir = Returned entries ->
  map av_name (listAvailableSkills fs homedir)
  = map entry_name (filter (has_descriptor fs registryDir) entries)
  /\ (List.length (listAvailableSkills fs homedir)
      <= List.length entries)%nat
  /\ (NoDup (map entry_name entries) ->
      NoDup (map av_name (listAvailableSkills fs homedir)))
  /\ (forall r, In r (listAvailableSkills fs homedir) ->
        av_displayName r = [] -> av_name r = []).
Proof.
  cbv zeta. intros He Hr. unfold listAvailableSkills.
  rewrite He, Hr, fold_visit_entry. cbn [app].
  pose proof (records_of_names fs (homedir ++ [lit ".dawg"; lit "skills"])
                entries) as Hn.
  split; [exact Hn|]. split; [|split].
  - rewrite <- (length_map av_name), Hn, length_map. apply filter_length_le.
  - intros Hd. rewrite Hn. apply distinct_names_kept. exact Hd.
  - intros r. apply records_of_displayName.
Qed.

Lemma listAvailableSkills_names_witness :
  map av_name (listAvailableSkills sample_fs sample_home) = [lit "lint"]
  /\ (List.length (listAvailableSkills sample_fs sample_home) <= 4)%nat.
Proof.
  destruct (listAvailableSkills_names sample_fs sample_home
              [mkDirent (lit "lint") true; mkDirent (lit "notes.txt") false;
               mkDirent (lit "empty") true; mkDirent (lit "locked") true]
              eq_refl eq_refl) as [E [L _]].
  split; [rewrite E; reflexivity | exact L].
Defined.

(** ** Hook runs *)

Lemma body_trigger_not_object (body : RequestBody) :
  (forall props, body <> JsonObject props) -> body_trigger body = VUndefined.
Proof.
  destruct body as [e|m| |props]; try reflexivity.
  intros H. exfalso. exact (H props eq_refl).
Qed.

(** X10: the run-all handler always runs with one of the four triggers,
    post-implementation when the body is not an object; it logs a
    hooks-started event before it calls [runAll] and never touches the
    earlier events.  When [runAll] rejects, the answer is a 500 with the
    error's message or "Failed to run hooks", and that started event stays
    without a completed one; when it returns, the answer is the run itself
    and one hooks-ran event follows under the same group key. *)
Theorem runAll_route_log (env : RunEnv) (worktreeId : jsstring)
    (body : RequestBody) (log : list ActivityEvent) :
  exists t started,
    In t hook_triggers
    /\ ((forall props, body <> JsonObject props) -> t = post_implementation)
    /\ ev_type started = lit "hooks_started"
    /\ ev_groupKey started = group_key worktreeId t
    /\ (forall r, In r (ev_commandResults started) ->
          sr_status r = lit "running")
    /\ match runAll env worktreeId t with
       | Threw e =>
           runAll_route env worktreeId body log
           = (ServerError (error_message e (lit "Failed to run hooks")),
              log ++ [started])
       | Returned run =>
           exists ran,
             runAll_route env worktreeId body log
             = (Replied run, log ++ [started; ran])
             /\ ev_type ran = lit "hooks_ran"
             /\ ev_groupKey ran = ev_groupKey started
       end.
Proof.
  set (t := normalized (body_trigger body)).
  exists t.
  exists (started_event worktreeId t (getProjectName env)
            (map running_entry (runnableSteps (getConfig env) t))).
  split; [apply normalized_in_triggers|].
  split; [intros H; unfold t; rewrite (body_trigger_not_object body H);
          reflexivity|].
  split; [reflexivity|]. split; [reflexivity|]. split.
  { cbn [ev_commandResults started_event]. intros r Hr.
    apply in_map_iff in Hr as [s [<- _]]. reflexivity. }
  unfold runAll_route. fold t.
  destruct (runAll env worktreeId t) as [run|e]; [|reflexivity].
  eexists. split; [rewrite <- app_assoc; reflexivity|].
  split; reflexivity.
Qed.

Lemma runAll_route_log_witness :
  exists started ran,
    runAll_route sample_env (lit "wt-1") (JsonNull (lit "TypeError")) []
    = (Replied (mkRun [result_of "a" "passed"; result_of "b" "failed"]
                      (lit "failed")),
       [started; ran])
    /\ ev_groupKey started = group_key (lit "wt-1") post_implementation.
Proof.
  destruct (runAll_route_log sample_env (lit "wt-1")
              (JsonNull (lit "TypeError")) [])
    as [t [started [_ [Hpost [_ [Hg [_ Hrun]]]]]]].
  assert (Et : t = post_implementation) by (apply Hpost; discriminate).
  cbn [runAll sample_env] in Hrun. destruct Hrun as [ran [E _]].
  exists started, ran. split; [exact E|]. rewrite Hg, Et. reflexivity.
Defined.

Lemma set_has_in (ids : list jsstring) (id : jsstring) :
  set_has ids id = true <-> In id ids.
Proof.
  unfold set_has. rewrite existsb_exists. split.
  - intros [x [Hx E]]. apply str_eqb_eq in E. subst. exact Hx.
  - intros H. exists id. split; [exact H | apply str_eqb_refl].
Qed.

Lemma in_triggerSteps (config : Config) (trigger : jsstring) (run : Run)
    (r : StepResult) :
  In r (triggerSteps config trigger run) <->
  In r (run_steps run)
  /\ exists step,
       In step (cfg_steps config)
       /\ step_id step = sr_stepId r
       /\ enabled_not_false step = true
       /\ matchesTrigger step trigger = true
       /\ isRunnableCommandStep step = true.
Proof.
  unfold triggerSteps, runnableSteps. rewrite filter_In, set_has_in, in_map_iff.
  split.
  - intros [Hr [step [Hid Hs]]]. split; [exact Hr|].
    apply filter_In in Hs as [Hs Hsel]. unfold selected in Hsel.
    rewrite !andb_true_iff in Hsel. exists step. tauto.
  - intros [Hr [step [Hs [Hid [He [Hm Hrun]]]]]]. split; [exact Hr|].
    exists step. split; [exact Hid|]. apply filter_In. split; [exact Hs|].
    unfold selected. rewrite He, Hm, Hrun. reflexivity.
Qed.

Lemma digits_of_uint (d : Decimal.uint) :
  forallb (fun c => (48 <=? c) && (c <=? 57))
          (lit (NilEmpty.string_of_uint d)) = true.
Proof. induction d; cbn; auto. Qed.

Lemma count_text_not_N (n : nat) (rest other : jsstring) :
  count_text n ++ 32 :: rest <> 78 :: other.
Proof.
  unfold count_text, decimal.
  pose proof (digits_of_uint (N.to_uint (N.of_nat n))) as H.
  destruct (lit (NilEmpty.string_of_uint (N.to_uint (N.of_nat n))))
    as [|c s]; [discriminate|].
  cbn [forallb] in H. apply andb_true_iff in H as [H _].
  intros E. injection E as -> _. discriminate H.
Qed.

(** X11: when [runAll] returns, the hooks-ran event reports exactly the
    results of the run whose step id is that of an enabled, runnable step
    of the config that matches the trigger: results the manager returns for
    prompt, disabled or other steps are left out of the event and of its
    counts.  Its severity is "success" exactly when none of the reported
    results failed and the run's own status is not "failed", and its
    detail says that no runnable hook is configured exactly when nothing
    is reported. *)
Theorem runAll_route_report (env : RunEnv) (worktreeId : jsstring)
    (body : RequestBody) (log : list ActivityEvent) (run : Run) :
  let t := normalized (body_trigger body) in
  runAll env worktreeId t = Returned run ->
  exists started ran,
    snd (runAll_route env worktreeId body log) = log ++ [started; ran]
    /\ (forall r,
          In r (ev_commandResults ran) <->
          In r (run_steps run)
          /\ exists step,
               In step (cfg_steps (getConfig env))
               /\ step_id step = sr_stepId r
               /\ enabled_not_false step = true
               /\ matchesTrigger step t = true
               /\ isRunnableCommandStep step = true)
    /\ (ev_severity ran = lit "success" <->
        (forall r, In r (ev_commandResults ran) ->
           sr_status r <> lit "failed")
        /\ run_status run <> lit "failed")
    /\ (ev_severity ran = lit "success" \/ ev_severity ran = lit "error")
    /\ (ev_detail ran
        = Some (lit "No runnable command hooks configured for this trigger.")
        <-> ev_commandResults ran = []).
Proof.
  cbv zeta. intros Hrun. unfold runAll_route. rewrite Hrun.
  set (t := normalized (body_trigger body)).
  set (results := triggerSteps (getConfig env) t run).
  do 2 eexists. split; [cbn [snd]; rewrite <- app_assoc; reflexivity|].
  cbn [ev_commandResults ev_severity ev_detail ran_event].
  split; [intros r; apply in_triggerSteps|].
  assert (Hfail : (0 <? List.length (filter is_failed results))%nat = false
                  <-> forall r, In r results -> sr_status r <> lit "failed").
  { rewrite Nat.ltb_ge. split.
    - intros Hl r Hr Hs.
      assert (Hin : In r (filter is_failed results)).
      { apply filter_In. split; [exact Hr|]. unfold is_failed.
        rewrite Hs. apply str_eqb_refl. }
      destruct (filter is_failed results); [contradiction | cbn in Hl; lia].
    - intros Hall. destruct (filter is_failed results) as [|r l] eqn:E;
        [cbn; lia|].
      exfalso. assert (Hin : In r (filter is_failed results))
        by (rewrite E; left; reflexivity).
      apply filter_In in Hin as [Hr Hf]. apply (Hall r Hr).
      apply str_eqb_eq. exact Hf. }
  split; [|split].
  - rewrite <- Hfail, <- str_eqb_neq.
    destruct (0 <? List.length (filter is_failed results))%nat;
      destruct (str_eqb (run_status run) (lit "failed")); cbn [orb];
      split; try tauto; try discriminate; intuition discriminate.
  - destruct ((0 <? _)%nat || _); auto.
  - destruct results as [|r results'] eqn:E.
    + cbn [List.length Nat.eqb]. split; reflexivity.
    + cbn [List.length Nat.eqb]. split; [|discriminate].
      intros Hd. exfalso. injection Hd as Hd. revert Hd.
      destruct (0 <? _)%nat.
      * change (lit "No runnable command hooks configured for this trigger.")
          with (78 :: lit "o runnable command hooks configured for this trigger.").
        change (lit " of ") with (32 :: lit "of ").
        cbn [app]. apply count_text_not_N.
      * change (lit "No runnable command hooks configured for this trigger.")
          with (78 :: lit "o runnable command hooks configured for this trigger.").
        change (lit " command hooks passed.")
          with (32 :: lit "command hooks passed.").
        apply count_text_not_N.
Qed.

Lemma runAll_route_report_witness :
  exists started ran,
    snd (runAll_route sample_env (lit "wt-1") JsonScalarOrArray [])
    = [] ++ [started; ran]
    /\ ev_commandResults ran = [result_of "a" "passed"]
    /\ ev_severity ran = lit "error"
    /\ ev_detail ran = Some (lit "1 command hooks passed.").
Proof.
  destruct (runAll_route_report sample_env (lit "wt-1") JsonScalarOrArray []
              (mkRun [result_of "a" "passed"; result_of "b" "failed"]
                     (lit "failed")) eq_refl)
    as [started [ran [E _]]].
  exists started, ran. split; [exact E|].
  cbn in E. injection E as <- <-. repeat split.
Defined.

(** X12: the run-single handler files its events under the normalized
    trigger of the step, post-implementation when the id is unknown.  It
    logs a hooks-started event only for a step that exists, is not
    disabled and is runnable, but it calls [runSingle] in every case and
    logs a hooks-ran event whenever that call returns: running a disabled
    step, a prompt step or an id the route does not know by id leaves a
    completed event with no started one.  The completed event carries the
    result as returned and has severity "error" exactly when the result's
    status is "failed"; when the call rejects the answer is a 500 and no
    completed event is logged. *)
Theorem runSingle_route_log (env : RunEnv) (worktreeId stepId : jsstring)
    (log : list ActivityEvent) :
  let step := find_step (getConfig env) stepId in
  exists t log1,
    In t hook_triggers
    /\ (step = None -> t = post_implementation)
    /\ (forall s t', step = Some s -> In t' hook_triggers ->
          matchesTrigger s t' = true -> t = t')
    /\ (announced step = false -> log1 = log)
    /\ (forall s, step = Some s -> announced step = true ->
          log1 = log ++ [started_event worktreeId t (getProjectName env)
                           [running_entry s]])
    /\ match runSingle env worktreeId stepId with
       | Threw e =>
           runSingle_route env worktreeId stepId log
           = (ServerError (error_message e (lit "Failed to run step")), log1)
       | Returned result =>
           exists ran,
             runSingle_route env worktreeId stepId log
             = (Replied result, log1 ++ [ran])
             /\ ev_type ran = lit "hooks_ran"
             /\ ev_groupKey ran = group_key worktreeId t
             /\ ev_commandResults ran = [result]
             /\ (ev_severity ran = lit "error" <->
                 sr_status result = lit "failed")
             /\ (ev_severity ran = lit "success" <->
                 sr_status result <> lit "failed")
       end.
Proof.
  cbv zeta. unfold runSingle_route, find_step.
  set (step := find (fun s => str_eqb (step_id s) stepId)
                    (cfg_steps (getConfig env))).
  set (t := normalized match step with
                       | Some s => text_value (step_trigger s)
                       | None => VUndefined
                       end).
  exists t.
  exists (match step with
          | Some s =>
              if enabled_not_false s && isRunnableCommandStep s
              then log ++ [started_event worktreeId t (getProjectName env)
                             [running_entry s]]
              else log
          | None => log
          end).
  split; [apply normalized_in_triggers|].
  split; [intros E; unfold t; rewrite E; reflexivity|].
  split.
  { intros s t' E Hin Hm. unfold t. rewrite E.
    apply matched_trigger_normalized; assumption. }
  split.
  { destruct step as [s|]; [|reflexivity]. cbn [announced].
    intros E. rewrite E. reflexivity. }
  split.
  { intros s E. rewrite E. cbn [announced]. intros Ha. rewrite Ha.
    reflexivity. }
  destruct (runSingle env worktreeId stepId) as [result|e]; [|reflexivity].
  eexists. split; [reflexivity|].
  cbn [ev_type ev_groupKey ev_commandResults ev_severity ran_event].
  split; [reflexivity|]. split; [reflexivity|].
  split; [destruct result; reflexivity|].
  unfold is_failed.
  destruct (str_eqb (sr_status result) (lit "failed")) eqn:E;
    [apply str_eqb_eq in E | apply str_eqb_neq in E];
    split; split; intros H; try reflexivity; try assumption;
    try contradiction; vm_compute in H; discriminate H.
Qed.

Lemma runSingle_route_log_witness :
  exists ran,
    runSingle_route sample_env (lit "wt-1") (lit "c") []
    = (Replied (result_of "c" "passed"), [ran])
    /\ ev_severity ran = lit "success".
Proof.
  destruct (runSingle_route_log sample_env (lit "wt-1") (lit "c") [])
    as [t [log1 [_ [_ [_ [Hlog [_ Hrun]]]]]]].
  rewrite (Hlog eq_refl) in Hrun.
  change (runSingle sample_env (lit "wt-1") (lit "c"))
    with (Returned (result_of "c" "passed")) in Hrun.
  destruct Hrun as [ran [E [_ [_ [_ [_ Hs]]]]]].
  exists ran. split; [exact E|]. apply Hs. discriminate.
Defined.

Lemma or_else_optional (v : value) : optional_field (or_else v VUndefined).
Proof.
  unfold optional_field, or_else. destruct (truthy v) eqn:E; auto.
Qed.

(** X13: whatever manager the routes are registered with, the report
    handler answers 200 or 400, and it either leaves the manager untouched
    (with a 400) or makes one call of [reportSkillResult], answering 200
    exactly when that call returns.  The record of the call is coherent:
    it has a truthy skillName and the timestamp, its status is running
    exactly when it has no success flag and else passed or failed as the
    flag says, and an optional field is either left out or truthy (an
    empty summary is dropped, not stored). *)
Theorem report_route_record {M Config : Type} `{HooksManager M Config}
    (m : M) (worktreeId now : jsstring) (body : RequestBody) :
  let answer := report_route worktreeId body now m in
  (res_status (fst answer) = 200 \/ res_status (fst answer) = 400)
  /\ ((snd answer = m /\ res_status (fst answer) = 400)
      \/ exists record out,
           reportSkillResult worktreeId record m = (out, snd answer)
           /\ coherent_result now record
           /\ (res_status (fst answer) = 200 <-> exists u, out = Returned u)).
Proof.
  cbv zeta. unfold report_route.
  destruct (destructure body) as [field|e]; cbn [fst snd res_status];
    [|auto].
  destruct (truthy (field (lit "skillName"))) eqn:Hs; cbn [negb];
    [|cbn [fst snd res_status]; auto].
  destruct (field (lit "success")) as [| |b|x|s|j] eqn:Hsucc;
    try (cbn [fst snd res_status]; auto; fail).
  all: match goal with
       | |- context [reportSkillResult ?w ?r ?m0] =>
           destruct (reportSkillResult w r m0) as [[u|e] m'] eqn:Er
       end;
    cbn [fst snd res_status];
    (split; [auto|]); right; do 2 eexists;
    (split; [exact Er|]);
    (split;
     [unfold coherent_result;
      cbn [r_skillName r_reportedAt r_success r_status r_summary
           r_content r_filePath];
      repeat split; auto using or_else_optional|]).
  all: split; [intros E; try discriminate E; eauto
              | intros [u' E]; try discriminate E; reflexivity].
Qed.

(** X14: whatever manager the routes are registered with, the add-step
    handler answers 200 or 400, and it either leaves the manager untouched
    (with a 400) or makes one call of [addStep], answering 200 with the
    returned config exactly when that call returns.  The call always has a
    truthy name; for a step of kind "prompt" it has a truthy prompt and the
    empty string as command, whatever command the request carried, and for
    any other step it has a truthy command. *)
Theorem addStep_route_call {M Config : Type} `{HooksManager M Config}
    (m : M) (body : RequestBody) :
  let answer := addStep_route body m in
  (res_status (fst answer) = 200 \/ res_status (fst answer) = 400)
  /\ ((snd answer = m /\ res_status (fst answer) = 400)
      \/ exists name command opts out,
           addStep name command opts m = (out, snd answer)
           /\ accepted_step name command opts
           /\ (res_status (fst answer) = 200 <->
               exists config,
                 out = Returned config
                 /\ res_body (fst answer) = SuccessConfig config)).
Proof.
  cbv zeta. unfold addStep_route.
  destruct (destructure body) as [field|e]; cbn [fst snd res_status];
    [|auto].
  destruct (truthy (field (lit "name"))) eqn:Hn; cbn [negb orb];
    [|cbn [fst snd res_status]; auto].
  destruct (strict_eq_str (field (lit "kind")) (lit "prompt")) eqn:Hk;
    cbn [negb andb orb].
  - destruct (truthy (field (lit "prompt"))) eqn:Hp; cbn [negb];
      [|cbn [fst snd res_status]; auto].
    match goal with
    | |- context [addStep ?n ?c ?o ?m0] =>
        destruct (addStep n c o m0) as [[config|e] m'] eqn:Ea
    end; cbn [fst snd res_status res_body]; (split; [auto|]); right;
      do 4 eexists; (split; [exact Ea|]);
      (split; [unfold accepted_step; cbn [o_kind o_prompt];
               rewrite Hk; auto|]).
    + split; [eauto | reflexivity].
    + split; [discriminate | intros [config [E _]]; discriminate E].
  - rewrite orb_false_r.
    destruct (truthy (field (lit "command"))) eqn:Hc; cbn [negb];
      [|cbn [fst snd res_status]; auto].
    match goal with
    | |- context [addStep ?n ?c ?o ?m0] =>
        destruct (addStep n c o m0) as [[config|e] m'] eqn:Ea
    end; cbn [fst snd res_status res_body]; (split; [auto|]); right;
      do 4 eexists; (split; [exact Ea|]);
      (split; [unfold accepted_step; cbn [o_kind o_prompt];
               rewrite Hk; auto|]).
    + split; [eauto | reflexivity].
    + split; [discriminate | intros [config [E _]]; discriminate E].
Qed.

(** ** Line endings *)

Lemma trimStart_not_blank (s x : jsstring) :
  blank_line s = false -> trimStart (s ++ x) = trimStart s ++ x.
Proof.
  induction s as [|c s IH]; [discriminate|].
  cbn [blank_line forallb app trimStart].
  destruct (is_whitespace c); [exact IH | reflexivity].
Qed.

Lemma trimEnd_snoc_CR (s : jsstring) : trimEnd (s ++ [CR]) = trimEnd s.
Proof. unfold trimEnd. rewrite rev_app_distr. reflexivity. Qed.

Lemma blank_line_snoc_CR (s : jsstring) :
  blank_line (s ++ [CR]) = blank_line s.
Proof.
  unfold blank_line. rewrite forallb_app. cbn [forallb].
  replace (is_whitespace CR) with true by reflexivity.
  rewrite !andb_true_r. reflexivity.
Qed.

Lemma trim_snoc_CR (s : jsstring) : trim (s ++ [CR]) = trim s.
Proof.
  unfold trim. destruct (blank_line s) eqn:Hb.
  - assert (H1 : trimStart (s ++ [CR]) = [])
      by (apply trimStart_nil_iff; rewrite blank_line_snoc_CR; exact Hb).
    assert (H2 : trimStart s = []) by (apply trimStart_nil_iff; exact Hb).
    rewrite H1, H2. reflexivity.
  - rewrite trimStart_not_blank by exact Hb. apply trimEnd_snoc_CR.
Qed.

Lemma indexOf_snoc_other (c x : code_unit) (l : jsstring) :
  (x =? c) = false -> indexOf c (l ++ [x]) = indexOf c l.
Proof.
  intros Hx. induction l as [|y l IH]; cbn [app indexOf].
  - rewrite Hx. reflexivity.
  - rewrite IH. reflexivity.
Qed.

Lemma indexOf_upper (c : code_unit) (l : jsstring) :
  (indexOf c l < Z.of_nat (List.length l))%Z \/ l = [].
Proof.
  induction l as [|x l IH]; [auto|]. left. cbn [indexOf List.length].
  destruct (x =? c); [lia|].
  destruct (indexOf c l <? 0)%Z eqn:E; [lia|].
  apply Z.ltb_ge in E. destruct IH as [IH | ->]; [lia|].
  cbn in E. lia.
Qed.

Lemma firstn_snoc {A : Type} (n : nat) (l : list A) (x : A) :
  (n <= List.length l)%nat -> firstn n (l ++ [x]) = firstn n l.
Proof.
  revert n. induction l as [|y l IH]; intros [|n] H; try reflexivity;
    cbn in *; [lia|].
  rewrite IH by lia. reflexivity.
Qed.

Lemma skipn_snoc {A : Type} (n : nat) (l : list A) (x : A) :
  (n <= List.length l)%nat -> skipn n (l ++ [x]) = skipn n l ++ [x].
Proof.
  revert n. induction l as [|y l IH]; intros [|n] H; try reflexivity;
    cbn in *; [lia|].
  apply IH. lia.
Qed.

(** The loop does not see a carriage return at the end of a line. *)
Lemma scan_line_snoc_CR (acc : Frontmatter) (l : jsstring) :
  scan_line acc (l ++ [CR]) = scan_line acc l.
Proof.
  unfold scan_line.
  rewrite (indexOf_snoc_other COLON CR l) by reflexivity.
  destruct (indexOf COLON l <=? 0)%Z eqn:E; [reflexivity|].
  apply Z.leb_gt in E.
  destruct (indexOf_upper COLON l) as [Hu | ->]; [|discriminate E].
  set (i := Z.to_nat (indexOf COLON l)).
  assert (Hi : indexOf COLON l = Z.of_nat i) by (unfold i; lia).
  assert (Hlt : (i < List.length l)%nat) by lia.
  assert (Hk : slice (l ++ [CR]) 0 (indexOf COLON l)
               = slice l 0 (indexOf COLON l)).
  { rewrite Hi, !slice_prefix by (rewrite ?length_app; cbn; lia).
    apply firstn_snoc. lia. }
  assert (Hv : trim (slice_from (l ++ [CR]) (indexOf COLON l + 1))
               = trim (slice_from l (indexOf COLON l + 1))).
  { replace (indexOf COLON l + 1)%Z with (Z.of_nat (S i)) by lia.
    rewrite !slice_from_suffix by (rewrite ?length_app; cbn; lia).
    rewrite skipn_snoc by lia. apply trim_snoc_CR. }
  rewrite Hk, Hv. reflexivity.
Qed.

Lemma starts_fence_snoc_CR (l : jsstring) :
  starts_with FENCE (l ++ [CR]) = starts_with FENCE l.
Proof.
  rewrite FENCE_eq.
  destruct l as [|a [|b [|c l]]]; cbn [app starts_with];
    rewrite ?andb_false_r; reflexivity.
Qed.

Lemma cr_variant_tests (l l' : jsstring) :
  cr_variant l l' ->
  blank_line l' = blank_line l
  /\ closing_line l' = closing_line l
  /\ opening_line l' = opening_line l
  /\ forall acc, scan_line acc l' = scan_line acc l.
Proof.
  intros [-> | ->]; [repeat split|].
  split; [apply blank_line_snoc_CR|].
  split; [apply starts_fence_snoc_CR|].
  split; [|intros acc; apply scan_line_snoc_CR].
  unfold opening_line. rewrite starts_fence_snoc_CR.
  destruct (starts_with FENCE l) eqn:E; [|reflexivity]. cbn [andb].
  rewrite (starts_fence_skipn l E) at 1. rewrite FENCE_eq.
  cbn [app skipn]. apply blank_line_snoc_CR.
Qed.

Lemma fold_scan_cr (b b' : list jsstring) :
  Forall2 cr_variant b b' ->
  forall acc, fold_left scan_line b' acc = fold_left scan_line b acc.
Proof.
  induction 1 as [|l l' b b' Hl _ IH]; intros acc; [reflexivity|].
  cbn [fold_left].
  destruct (cr_variant_tests l l' Hl) as [_ [_ [_ Hs]]].
  rewrite Hs. apply IH.
Qed.

Lemma until_closing_cr (ls ls' : list jsstring) :
  Forall2 cr_variant ls ls' ->
  match until_closing ls, until_closing ls' with
  | Some b, Some b' => Forall2 cr_variant b b'
  | None, None => True
  | _, _ => False
  end.
Proof.
  induction 1 as [|l l' ls ls' Hl _ IH]; [exact I|].
  cbn [until_closing].
  destruct (cr_variant_tests l l' Hl) as [_ [Hc _]]. rewrite Hc.
  destruct (closing_line l); [constructor|].
  destruct (until_closing ls), (until_closing ls'); cbn [option_map];
    try contradiction; [constructor; assumption | exact I].
Qed.

Lemma scan_block_cr (ls ls' : list jsstring) :
  Forall2 cr_variant ls ls' ->
  scan_block (block_after_opening ls') = scan_block (block_after_opening ls).
Proof.
  induction 1 as [|l l' ls ls' Hl Hrest IH]; [reflexivity|].
  cbn [block_after_opening].
  destruct (cr_variant_tests l l' Hl) as [Hb [_ [_ Hs]]]. rewrite Hb.
  destruct (blank_line l); [exact IH|].
  pose proof (until_closing_cr ls ls' Hrest) as Hu.
  destruct (until_closing ls) as [b|], (until_closing ls') as [b'|];
    cbn [option_map scan_block]; try contradiction; [|reflexivity].
  cbn [fold_left]. rewrite Hs. apply fold_scan_cr. exact Hu.
Qed.

Lemma descriptor_fields_scan (lines : list jsstring) :
  descriptor_fields lines = scan_block (leading_block lines).
Proof.
  unfold descriptor_fields, scan_block.
  destruct (leading_block lines) as [block|]; [|reflexivity].
  rewrite fold_scan_line. reflexivity.
Qed.

Lemma descriptor_fields_cr (lines lines' : list jsstring) :
  Forall2 cr_variant lines lines' ->
  descriptor_fields lines' = descriptor_fields lines.
Proof.
  intros H. rewrite !descriptor_fields_scan.
  destruct H as [|l l' ls ls' Hl Hrest]; [reflexivity|].
  cbn [leading_block].
  destruct (cr_variant_tests l l' Hl) as [_ [_ [Ho _]]]. rewrite Ho.
  destruct (opening_line l); [|reflexivity].
  apply scan_block_cr. exact Hrest.
Qed.

Lemma with_returns_not_nil (l : jsstring) (ls : list jsstring) :
  with_returns (l :: ls) <> [].
Proof. destruct ls; discriminate. Qed.

Lemma join_crlf_lines (ls : list jsstring) :
  join_crlf ls = join_lines (with_returns ls).
Proof.
  induction ls as [|l [|l1 ls] IH]; try reflexivity.
  change (join_crlf (l :: l1 :: ls))
    with (l ++ CR :: LF :: join_crlf (l1 :: ls)).
  rewrite IH.
  change (with_returns (l :: l1 :: ls))
    with ((l ++ [CR]) :: with_returns (l1 :: ls)).
  rewrite join_lines_cons.
  destruct (with_returns (l1 :: ls)) eqn:E;
    [exfalso; exact (with_returns_not_nil l1 ls E)|].
  rewrite <- app_assoc. reflexivity.
Qed.

Lemma with_returns_variant (ls : list jsstring) :
  Forall2 cr_variant ls (with_returns ls).
Proof.
  induction ls as [|l [|l1 ls] IH].
  - constructor.
  - constructor; [left; reflexivity | constructor].
  - change (with_returns (l :: l1 :: ls))
      with ((l ++ [CR]) :: with_returns (l1 :: ls)).
    constructor; [right; reflexivity | exact IH].
Qed.

Lemma with_returns_LF_free (ls : list jsstring) :
  LF_free ls -> LF_free (with_returns ls).
Proof.
  unfold LF_free. induction ls as [|l [|l1 ls] IH]; intros H; auto.
  inversion H; subst.
  change (with_returns (l :: l1 :: ls))
    with ((l ++ [CR]) :: with_returns (l1 :: ls)).
  constructor; [|auto].
  unfold no_LF in *. rewrite forallb_app. apply andb_true_iff.
  split; [assumption | reflexivity].
Qed.

(** X15: line endings make no difference: the same lines joined with
    carriage return and line feed parse to the same name and description
    as when they are joined with line feeds alone. *)
Theorem parseSkillFrontmatter_crlf (lines : list jsstring) :
  LF_free lines ->
  parseSkillFrontmatter (join_crlf lines)
  = parseSkillFrontmatter (join_lines lines).
Proof.
  intros H. destruct lines as [|l ls]; [reflexivity|].
  rewrite join_crlf_lines.
  pose proof (with_returns_LF_free (l :: ls) H) as H'.
  pose proof (with_returns_variant (l :: ls)) as Hv.
  destruct (with_returns (l :: ls)) as [|l' ls'] eqn:E;
    [inversion Hv|].
  rewrite !parseSkillFrontmatter_lines by assumption.
  apply descriptor_fields_cr. exact Hv.
Qed.

Lemma parseSkillFrontmatter_crlf_witness :
  parseSkillFrontmatter
    (join_crlf (map lit ["---"; "name: Lint"; "description: Runs the linter";
                         "---"; ""]%string))
  = mkFrontmatter (lit "Lint") (lit "Runs the linter").
Proof.
  rewrite (parseSkillFrontmatter_crlf
             (map lit ["---"; "name: Lint"; "description: Runs the linter";
                       "---"; ""]%string)).
  - reflexivity.
  - repeat constructor.
Defined.
